(** * A chat page: DOM form, remote chat session, conversation view

    Shallow embedding of [src/index.tsx].  The page is a single module that
    - checks a credential and halts with a rendered error when it is missing,
    - creates a chat session and registers a [submit] listener on the form,
    - sends a first synthetic message to obtain a greeting,
    - and, for each form submission, renders the user's text, a loading
      indicator and then either the reply or an error bubble.

    The asynchronous functions of the source are cut at their [await]s into
    synchronous segments; a table of suspended continuations and an event
    dispatcher play the role of the browser's event loop. *)

From Stdlib Require Import List String Ascii NArith ZArith Bool Arith Lia Permutation.
Import ListNotations.

Local Open Scope list_scope.

(** ** JavaScript strings

    A JavaScript string is a sequence of UTF-16 code units.  [trim] depends on
    code units outside ASCII, so payload strings are lists of code units;
    DOM tokens (tag and class names) are ASCII and stay [string]. *)

Module JsString.

Definition code_unit := N.
Definition t := list code_unit.

(** An ASCII literal as a JavaScript string. *)
Definition lit (s : string) : t := map N_of_ascii (list_ascii_of_string s).

(** The line feed of the escape [\n]. *)
Definition LF : code_unit := 10%N.

(** ECMAScript WhiteSpace and LineTerminator code points, all of them in the
    basic plane: TAB, LF, VT, FF, CR, SP, NBSP, U+1680, U+2000..U+200A,
    U+2028, U+2029, U+202F, U+205F, U+3000 and U+FEFF. *)
Definition is_ws (c : JsString.code_unit) : bool :=
  (existsb (N.eqb c)
     [9; 10; 11; 12; 13; 32; 160; 5760; 8232; 8233; 8239; 8287; 12288; 65279]
   || ((8192 <=? c) && (c <=? 8202)))%N.

Fixpoint trimStart (s : t) : t :=
  match s with
  | [] => []
  | c :: r => if is_ws c then trimStart r else s
  end.

Definition trimEnd (s : t) : t := rev (trimStart (rev s)).

(** [String.prototype.trim] *)
Definition trim (s : t) : t := trimEnd (trimStart s).

(** ToBoolean on a string: only the empty string is falsy. *)
Definition truthy (s : t) : bool :=
  match s with [] => false | _ :: _ => true end.

End JsString.

Definition jsstring : Type := JsString.t.
Definition lit : string -> jsstring := JsString.lit.

Arguments JsString.trim : simpl never.
Arguments lit : simpl never.

(** ** Thrown values

    What a [catch] clause can receive: an [Error] object (of any subclass,
    told apart by its [name]) or any other value, kept through its string
    conversion. *)

Inductive JsThrown :=
| ErrorObj (name message : jsstring)
| OtherValue (text : jsstring).

(** [String(error)], as the template literal [`${error}`] computes it;
    for an [Error] this is [Error.prototype.toString]. *)
Definition toString (e : JsThrown) : jsstring :=
  match e with
  | ErrorObj name message =>
      match name, message with
      | [], _ => message
      | _, [] => name
      | _, _ => name ++ lit ": " ++ message
      end
  | OtherValue text => text
  end.

(** ** DOM elements

    An element has an identity ([el_id], standing for the object's address),
    a tag, a class list and its inner markup.  The program only mutates an
    element between its creation and its insertion in the list, so elements
    are values; identity is what [remove] goes by. *)

Record Element := mkElement {
  el_id : nat;
  localName : string;
  classList : list string;
  innerHTML : jsstring
}.

Inductive Role := user | model.

Definition role_name (r : Role) : string :=
  match r with user => "user" | model => "model" end.

(** The template literal [`${role}-message`]. *)
Definition role_class (r : Role) : string :=
  String.append (role_name r) "-message".

(** [classList.add(...tokens)]: each token is added unless present. *)
Definition classList_add (el : Element) (tokens : list string) : Element :=
  mkElement (el_id el) (localName el)
    (fold_left
       (fun cl tok => if existsb (String.eqb tok) cl then cl else cl ++ [tok])
       tokens (classList el))
    (innerHTML el).

Definition set_innerHTML (el : Element) (html : jsstring) : Element :=
  mkElement (el_id el) (localName el) (classList el) html.

Definition has_class (c : string) (el : Element) : bool :=
  existsb (String.eqb c) (classList el).

(** A bubble of the given role. *)
Definition is_role (r : Role) (el : Element) : bool :=
  has_class (role_class r) el.

Definition is_loading (el : Element) : bool := has_class "loading" el.

(** ** The chat session *)

Record Chat := mkChat {
  apiKey : jsstring;
  chat_model : string;
  chat_systemInstruction : string
}.

Definition dq : string := String (ascii_of_nat 34) EmptyString.
Definition nl : string := String (ascii_of_nat 10) EmptyString.

Definition systemInstruction : string :=
  String.concat EmptyString
  [ "You are a Class 12 Mathematics Tutor."; nl; nl;
    "Rules:"; nl;
    "1. Always explain step by step in simple language."; nl;
    "2. Never give the full solution at once."; nl;
    "3. First give **Hint 1** (basic concept)."; nl;
    "4. If the student says "; dq; "more hint"; dq;
    ", then give **Hint 2** (partial working)."; nl;
    "5. If the student says "; dq; "Show solution"; dq;
    ", then provide the full worked-out solution."; nl;
    "6. After every solution, generate 3 small quiz questions for practice."; nl;
    "7. Always solve problems in the style of PTB Class 12 Math textbook. This means your tone should be educational, clear, and encouraging. Use proper mathematical terminology."; nl;
    "8. If a student pastes a problem directly, first repeat the question in a formatted way before providing the first hint."; nl;
    "9. Start the conversation with a friendly greeting and ask the student to present a math problem." ]%string.

(** How a pending [chat.sendMessage] settles: with a response, whose
    [text] is a string, or with a thrown value. *)
Inductive Outcome :=
| Reply (text : jsstring)
| Fault (error : JsThrown).

(** ** Suspended continuations

    The two call sites of [chat.sendMessage] differ in the text of their
    [catch] clause only. *)

Inductive Site := InSubmitHandler | InInitializeChat.

Inductive Cont :=
| K_done
    (* the async function has returned *)
| K_user_parse (messageEl : Element) (html userInput : jsstring)
    (* submit handler, inside renderMessage('user', userInput),
       at [await marked.parse(text)] *)
| K_user_rendered (userInput : jsstring)
    (* submit handler at [await renderMessage('user', userInput)] *)
| K_send (loadingIndicator : Element) (site : Site)
    (* at [await chat.sendMessage(...)] inside [try] *)
| K_model_parse (messageEl : Element) (html : jsstring) (caught : option JsThrown)
    (* inside renderMessage('model', ...), at [await marked.parse(text)];
       [caught] is the error of the enclosing [catch] clause, if any *)
| K_model_rendered (caught : option JsThrown)
    (* at [await renderMessage('model', ...)] *).

(** ** Observable effects, in program order *)

Inductive Effect :=
| E_preventDefault
| E_list_innerHTML (markup : string)       (* messageList.innerHTML = markup *)
| E_setValue (v : jsstring)                (* chatInput.value = v *)
| E_append (el : Element)                  (* messageList.appendChild(el) *)
| E_remove (el : Element)                  (* el.remove() *)
| E_scrollTop (v : Z)                      (* messageList.scrollTop = v *)
| E_send (message : jsstring)              (* chat.sendMessage({ message }) *)
| E_console_error (error : JsThrown).      (* console.error(error) *)

Inductive Listener := submit_listener.

(** ** The page *)

Record World := mkWorld {
  children : list Element;     (* element children of #message-list *)
  scrollTop : Z;               (* messageList.scrollTop *)
  value : jsstring;            (* chatInput.value *)
  chat : option Chat;          (* the module constant [chat], once initialised *)
  listeners : list Listener;   (* submit listeners of #chat-form *)
  next_id : nat;               (* identity of the next element created *)
  tasks : list Cont;           (* async invocations, by order of start *)
  trace : list Effect          (* effects so far, oldest first *)
}.

Definition initial_world : World :=
  mkWorld [] 0%Z [] None [] 0 [] [].

(** ** Completions and the monad of synchronous code *)

Inductive Completion (A : Type) :=
| Normal (a : A)
| Throw (e : JsThrown).
Arguments Normal {A} a.
Arguments Throw {A} e.

Definition M (A : Type) := World -> Completion A * World.

Definition ret {A} (a : A) : M A := fun w => (Normal a, w).

Definition bind {A B} (c : M A) (k : A -> M B) : M B :=
  fun w =>
    match c w with
    | (Normal a, w') => k a w'
    | (Throw e, w') => (Throw e, w')
    end.

Definition throw {A} (e : JsThrown) : M A := fun w => (Throw e, w).

Declare Scope js_scope.
Delimit Scope js_scope with js.
Notation "x <- c ;; k" := (bind c (fun x => k))
  (at level 61, c at next level, right associativity) : js_scope.
Notation "' pat <- c ;; k" := (bind c (fun x => match x with pat => k end))
  (at level 61, pat pattern, c at next level, right associativity) : js_scope.
Notation "c ;; k" := (bind c (fun _ => k))
  (at level 61, right associativity) : js_scope.
Local Open Scope js_scope.

Definition emit (e : Effect) : M unit :=
  fun w =>
    (Normal tt,
     mkWorld (children w) (scrollTop w) (value w) (chat w) (listeners w)
       (next_id w) (tasks w) (trace w ++ [e])).

Fixpoint update_nth {A} (i : nat) (x : A) (l : list A) : list A :=
  match l, i with
  | [], _ => []
  | _ :: r, 0 => x :: r
  | a :: r, S i' => a :: update_nth i' x r
  end.

Definition set_task (i : nat) (k : Cont) (w : World) : World :=
  mkWorld (children w) (scrollTop w) (value w) (chat w) (listeners w)
    (next_id w) (update_nth i k (tasks w)) (trace w).

Definition spawn (k : Cont) (w : World) : World :=
  mkWorld (children w) (scrollTop w) (value w) (chat w) (listeners w)
    (next_id w) (tasks w ++ [k]) (trace w).

(** The user edits the input field. *)
Definition type_value (v : jsstring) (w : World) : World :=
  mkWorld (children w) (scrollTop w) v (chat w) (listeners w)
    (next_id w) (tasks w) (trace w).

(** ** A sample renderer and layout

    A stand-in for the collaborators the program is parametric in: a
    renderer that wraps its input in a paragraph, rows of 40 pixels in a
    viewport of 100. *)

Module Sample.

Definition parse (s : jsstring) : jsstring := lit "<p>" ++ s ++ lit "</p>".

Definition height (l : list Element) : N := (40 * N.of_nat (List.length l))%N.

Definition viewport : N := 100%N.

End Sample.

(** ** The program *)

Section Page.

(** [marked.parse]: the Markdown renderer, an external collaborator. *)
Variable marked_parse : jsstring -> jsstring.

(** Layout: the scroll height of the list for given children, and the
    height of its viewport. *)
Variable scrollHeight : list Element -> N.
Variable clientHeight : N.

(** *** DOM primitives *)

Definition createElement (tag : string) : M Element :=
  fun w =>
    (Normal (mkElement (next_id w) tag [] []),
     mkWorld (children w) (scrollTop w) (value w) (chat w) (listeners w)
       (S (next_id w)) (tasks w) (trace w)).

(** [messageList.appendChild(el)]; [el] is always a node created by the
    caller and not yet inserted, so nothing is moved. *)
Definition appendChild (el : Element) : M unit :=
  (fun w =>
     (Normal tt,
      mkWorld (children w ++ [el]) (scrollTop w) (value w) (chat w)
        (listeners w) (next_id w) (tasks w) (trace w))) ;;
  emit (E_append el).

Definition detach (id : nat) (l : list Element) : list Element :=
  filter (fun e => negb (el_id e =? id)) l.

(** [el.remove()]: detaches the node; nothing happens if it has no parent. *)
Definition remove (el : Element) : M unit :=
  (fun w =>
     (Normal tt,
      mkWorld (detach (el_id el) (children w)) (scrollTop w) (value w) (chat w)
        (listeners w) (next_id w) (tasks w) (trace w))) ;;
  emit (E_remove el).

Definition get_scrollHeight : M Z :=
  fun w => (Normal (Z.of_N (scrollHeight (children w))), w).

(** The largest offset the list can be scrolled to. *)
Definition max_scrollTop (l : list Element) : Z :=
  Z.max 0 (Z.of_N (scrollHeight l) - Z.of_N clientHeight).

(** Assigning [scrollTop] clamps the value to the scrollable range. *)
Definition set_scrollTop (v : Z) : M unit :=
  (fun w =>
     (Normal tt,
      mkWorld (children w)
        (Z.max 0 (Z.min v (max_scrollTop (children w))))
        (value w) (chat w) (listeners w) (next_id w) (tasks w) (trace w))) ;;
  emit (E_scrollTop v).

Definition get_value : M jsstring := fun w => (Normal (value w), w).

Definition set_value (v : jsstring) : M unit :=
  (fun w =>
     (Normal tt,
      mkWorld (children w) (scrollTop w) v (chat w) (listeners w)
        (next_id w) (tasks w) (trace w))) ;;
  emit (E_setValue v).

Definition preventDefault : M unit := emit E_preventDefault.

Definition console_error (e : JsThrown) : M unit := emit (E_console_error e).

Definition addEventListener_submit : M unit :=
  fun w =>
    (Normal tt,
     mkWorld (children w) (scrollTop w) (value w) (chat w)
       (listeners w ++ [submit_listener]) (next_id w) (tasks w) (trace w)).

(** *** Startup error markup (lines 18-22) *)

Definition error_inner : string :=
  String.concat EmptyString
  [ nl; "      <p><strong>Error:</strong> API_KEY environment variable not set.</p>";
    nl; "      <p>Please follow the instructions in the README to set up your API key.</p>";
    nl; "    " ]%string.

Definition error_markup : string :=
  String.concat EmptyString
  [ nl; "    <div class="; dq; "message model-message"; dq; ">";
    error_inner; "</div>" ]%string.

(** The one element [error_markup] parses to (the white space before it is
    a text node, not an element). *)
Definition error_element (id : nat) : Element :=
  mkElement id "div" ["message"; "model-message"]%string (lit error_inner).

(** [messageList.innerHTML = error_markup]: the children are replaced by
    the parsed markup. *)
Definition set_list_innerHTML_error : M unit :=
  (fun w =>
     (Normal tt,
      mkWorld [error_element (next_id w)] (scrollTop w) (value w) (chat w)
        (listeners w) (S (next_id w)) (tasks w) (trace w))) ;;
  emit (E_list_innerHTML error_markup).

(** *** Session creation (lines 26-46) *)

Definition chats_create (key : jsstring) : M unit :=
  fun w =>
    (Normal tt,
     mkWorld (children w) (scrollTop w) (value w)
       (Some (mkChat key "gemini-2.5-flash" systemInstruction))
       (listeners w) (next_id w) (tasks w) (trace w)).

Definition get_chat : M (option Chat) := fun w => (Normal (chat w), w).

(** Reading [chat] before line 41 has run is a ReferenceError. *)
Definition chat_uninitialized : JsThrown :=
  ErrorObj (lit "ReferenceError")
           (lit "Cannot access 'chat' before initialization").

(** *** renderMessage (lines 56-63), cut at its [await] *)

Definition renderMessage_begin (role : Role) (text : jsstring)
  : M (Element * jsstring) :=
  messageEl <- createElement "div" ;;
  let messageEl := classList_add messageEl ["message"%string; role_class role] in
  ret (messageEl, marked_parse text).

Definition renderMessage_resume (messageEl : Element) (html : jsstring)
  : M Element :=
  let messageEl := set_innerHTML messageEl html in
  appendChild messageEl ;;
  h <- get_scrollHeight ;;
  set_scrollTop h ;;
  ret messageEl.

(** *** renderLoadingIndicator (lines 69-76) *)

Definition renderLoadingIndicator : M Element :=
  loadingEl <- createElement "div" ;;
  let loadingEl :=
    classList_add loadingEl ["message"; "model-message"; "loading"]%string in
  let loadingEl := set_innerHTML loadingEl (lit "Thinking...") in
  appendChild loadingEl ;;
  h <- get_scrollHeight ;;
  set_scrollTop h ;;
  ret loadingEl.

(** *** The two [try]/[catch] blocks (lines 93-101 and 109-118)

    The renderer is total on strings, so the remote call is the only
    statement of a [try] block that can throw. *)

Definition catch_text (site : Site) (error : JsThrown) : jsstring :=
  match site with
  | InSubmitHandler =>
      lit "**Error:** Something went wrong. Please try again. "
  | InInitializeChat =>
      lit "**Error:** Could not initialize chat. "
  end ++ [JsString.LF; JsString.LF] ++ lit "```" ++ toString error ++ lit "```".

Definition on_reply (loadingIndicator : Element) (text : jsstring) : M Cont :=
  remove loadingIndicator ;;
  '(messageEl, html) <- renderMessage_begin model text ;;
  ret (K_model_parse messageEl html None).

Definition on_catch (site : Site) (loadingIndicator : Element)
  (error : JsThrown) : M Cont :=
  remove loadingIndicator ;;
  '(messageEl, html) <- renderMessage_begin model (catch_text site error) ;;
  ret (K_model_parse messageEl html (Some error)).

(** [try { const response = await chat.sendMessage({ message }); ...]. *)
Definition try_send (site : Site) (loadingIndicator : Element)
  (message : jsstring) : M Cont :=
  c <- get_chat ;;
  match c with
  | Some _ =>
      emit (E_send message) ;;
      ret (K_send loadingIndicator site)
  | None => on_catch site loadingIndicator chat_uninitialized
  end.

(** *** The submit listener (lines 81-102), up to its first [await] *)

Definition on_submit : M Cont :=
  preventDefault ;;
  v <- get_value ;;
  let userInput := JsString.trim v in
  if negb (JsString.truthy userInput) then ret K_done
  else
    set_value [] ;;
    '(messageEl, html) <- renderMessage_begin user userInput ;;
    ret (K_user_parse messageEl html userInput).

(** *** initializeChat (lines 107-119), up to its first [await] *)

Definition initializeChat : M Cont :=
  loadingIndicator <- renderLoadingIndicator ;;
  try_send InInitializeChat loadingIndicator (lit "Hello").

(** *** Resumptions *)

(** A continuation whose awaited promise is fulfilled by the page itself
    (the renderer, or renderMessage's own promise) runs to its next
    [await]. *)
Definition resume (k : Cont) : M Cont :=
  match k with
  | K_done => ret K_done
  | K_user_parse messageEl html userInput =>
      renderMessage_resume messageEl html ;;
      ret (K_user_rendered userInput)
  | K_user_rendered userInput =>
      loadingIndicator <- renderLoadingIndicator ;;
      try_send InSubmitHandler loadingIndicator userInput
  | K_send loadingIndicator site => ret (K_send loadingIndicator site)
  | K_model_parse messageEl html caught =>
      renderMessage_resume messageEl html ;;
      ret (K_model_rendered caught)
  | K_model_rendered caught =>
      match caught with
      | Some error => console_error error
      | None => ret tt
      end ;;
      ret K_done
  end.

(** A continuation waiting for the remote call runs when the call settles. *)
Definition settle (k : Cont) (o : Outcome) : M Cont :=
  match k with
  | K_send loadingIndicator site =>
      match o with
      | Reply text => on_reply loadingIndicator text
      | Fault error => on_catch site loadingIndicator error
      end
  | _ => ret k
  end.

(** *** Module evaluation (lines 16-122) *)

(** Lines 17-24: the error is rendered and evaluation stops. *)
Definition missing_credential {A} : M A :=
  set_list_innerHTML_error ;;
  throw (ErrorObj (lit "Error") (lit "API_KEY not set")).

(** [process.env.API_KEY] is undefined or a string; [!API_KEY] holds for
    undefined and for the empty string. *)
Definition main (API_KEY : option jsstring) : M Cont :=
  key <-
    match API_KEY with
    | Some k => if negb (JsString.truthy k) then missing_credential else ret k
    | None => missing_credential
    end ;;
  chats_create key ;;
  addEventListener_submit ;;
  initializeChat.

(** *** The event loop

    Events are handled one at a time, each running the code it wakes up to
    its next [await].  The default action of a submit event (navigation) is
    not part of the page's own code and is left out. *)

(** An async invocation that ran to an [await] is recorded; one that
    returned, or threw, leaves nothing behind. *)
Definition start (c : M Cont) (w : World) : World :=
  match c w with
  | (Normal K_done, w') => w'
  | (Normal k, w') => spawn k w'
  | (Throw _, w') => w'
  end.

(** Task [i] runs a segment and suspends again (or ends). *)
Definition continue (i : nat) (c : M Cont) (w : World) : World :=
  match c w with
  | (Normal k, w') => set_task i k w'
  | (Throw _, w') => set_task i K_done w'
  end.

Inductive Event :=
| UserTypes (v : jsstring)           (* the user edits the input field *)
| SubmitForm                         (* a submit event on the form *)
| Resolve (i : nat)                  (* task i's local await is fulfilled *)
| Settle (i : nat) (o : Outcome).    (* task i's remote call settles *)

Definition dispatch (ev : Event) (w : World) : World :=
  match ev with
  | UserTypes v => type_value v w
  | SubmitForm =>
      fold_left (fun w' l => match l with submit_listener => start on_submit w' end)
        (listeners w) w
  | Resolve i =>
      match nth_error (tasks w) i with
      | Some k => continue i (resume k) w
      | None => w
      end
  | Settle i o =>
      match nth_error (tasks w) i with
      | Some k => continue i (settle k o) w
      | None => w
      end
  end.

Definition run (evs : list Event) (w : World) : World :=
  fold_left (fun w' ev => dispatch ev w') evs w.

(** The page once its module has been evaluated. *)
Definition boot (API_KEY : option jsstring) : World :=
  start (main API_KEY) initial_world.

(** ** Reading the trace *)

(** Messages handed to [chat.sendMessage], oldest first. *)
Fixpoint sends (t : list Effect) : list jsstring :=
  match t with
  | [] => []
  | E_send m :: r => m :: sends r
  | _ :: r => sends r
  end.

(** Elements appended to the list that satisfy [p], oldest first. *)
Fixpoint appended (p : Element -> bool) (t : list Effect) : list Element :=
  match t with
  | [] => []
  | E_append el :: r => if p el then el :: appended p r else appended p r
  | _ :: r => appended p r
  end.

(** Elements on which [remove] was called, oldest first. *)
Fixpoint removed (t : list Effect) : list Element :=
  match t with
  | [] => []
  | E_remove el :: r => el :: removed r
  | _ :: r => removed r
  end.

(** Every [appendChild] is directly followed by an assignment to
    [scrollTop]. *)
Fixpoint appends_scrolled (t : list Effect) : bool :=
  match t with
  | [] => true
  | E_append _ :: r =>
      match r with
      | E_scrollTop _ :: _ => appends_scrolled r
      | _ => false
      end
  | _ :: r => appends_scrolled r
  end.

Definition credential_absent (API_KEY : option jsstring) : Prop :=
  API_KEY = None \/ API_KEY = Some [].

(** The list shows its end: it is scrolled as far as it goes. *)
Definition at_bottom (w : World) : Prop :=
  scrollTop w = max_scrollTop (children w).

(** The elements the program builds, by identity and content. *)
Definition user_bubble (id : nat) (userInput : jsstring) : Element :=
  mkElement id "div" ["message"; "user-message"]%string (marked_parse userInput).

Definition model_bubble (id : nat) (text : jsstring) : Element :=
  mkElement id "div" ["message"; "model-message"]%string (marked_parse text).

Definition loading_bubble (id : nat) : Element :=
  mkElement id "div" ["message"; "model-message"; "loading"]%string
    (lit "Thinking...").

(** The Markdown source rendered once the remote call has settled, and the
    error the [catch] clause then holds. *)
Definition settled_text (site : Site) (o : Outcome) : jsstring :=
  match o with
  | Reply text => text
  | Fault error => catch_text site error
  end.

Definition caught_error (o : Outcome) : option JsThrown :=
  match o with
  | Reply _ => None
  | Fault error => Some error
  end.

Definition logged (caught : option JsThrown) : list Effect :=
  match caught with
  | Some error => [E_console_error error]
  | None => []
  end.

(** ** Well-formed pages *)

(** The element a task has created and not yet inserted. *)
Definition held (k : Cont) : option Element :=
  match k with
  | K_user_parse el _ _ | K_model_parse el _ _ => Some el
  | _ => None
  end.

(** The loading indicator of a task whose remote call is in flight. *)
Definition pending (k : Cont) : option Element :=
  match k with
  | K_send el _ => Some el
  | _ => None
  end.

(** What holds of every page the program can reach: elements have distinct
    identities, all of them already allocated; an element a task still
    holds is not in the list and is held by that task only; the indicator
    of a pending call is in the list and belongs to that call only; tasks
    and listeners exist only once the session does; the listener is
    registered at most once. *)
Record consistent (w : World) : Prop := {
  ids_nodup : NoDup (map el_id (children w));
  ids_fresh : forall e, In e (children w) -> el_id e < next_id w;
  held_fresh : forall i k e,
    nth_error (tasks w) i = Some k -> held k = Some e ->
    el_id e < next_id w /\ ~ In (el_id e) (map el_id (children w));
  held_inj : forall i j k k' e e',
    nth_error (tasks w) i = Some k -> nth_error (tasks w) j = Some k' ->
    held k = Some e -> held k' = Some e' -> el_id e = el_id e' -> i = j;
  pending_in : forall i k e,
    nth_error (tasks w) i = Some k -> pending k = Some e ->
    In e (children w) /\ is_loading e = true;
  pending_inj : forall i j k k' e e',
    nth_error (tasks w) i = Some k -> nth_error (tasks w) j = Some k' ->
    pending k = Some e -> pending k' = Some e' -> el_id e = el_id e' -> i = j;
  chat_ready : chat w = None -> tasks w = [] /\ listeners w = [];
  one_listener : listeners w = [] \/ listeners w = [submit_listener]
}.

(** ** The transitions of the page, one constructor per program point

    A relational reading of [dispatch]; [dispatch_step] below shows that on
    a well-formed page each event handled by [dispatch] is one of these
    transitions. *)

Inductive step (w : World) : Event -> World -> Prop :=
| step_type v :
    step w (UserTypes v) (type_value v w)
| step_idle ev :
    step w ev w
| step_blank :
    listeners w = [submit_listener] ->
    JsString.trim (value w) = [] ->
    step w SubmitForm
      (mkWorld (children w) (scrollTop w) (value w) (chat w) (listeners w)
         (next_id w) (tasks w) (trace w ++ [E_preventDefault]))
| step_submit c u :
    listeners w = [submit_listener] ->
    JsString.trim (value w) = c :: u ->
    step w SubmitForm
      (mkWorld (children w) (scrollTop w) [] (chat w) (listeners w)
         (S (next_id w))
         (tasks w ++
            [K_user_parse
               (mkElement (next_id w) "div" ["message"; "user-message"]%string [])
               (marked_parse (c :: u)) (c :: u)])
         (trace w ++ [E_preventDefault; E_setValue []]))
| step_user_parse i messageEl html userInput :
    nth_error (tasks w) i = Some (K_user_parse messageEl html userInput) ->
    step w (Resolve i)
      (mkWorld (children w ++ [set_innerHTML messageEl html])
         (max_scrollTop (children w ++ [set_innerHTML messageEl html]))
         (value w) (chat w) (listeners w) (next_id w)
         (update_nth i (K_user_rendered userInput) (tasks w))
         (trace w ++ [E_append (set_innerHTML messageEl html);
                      E_scrollTop (Z.of_N (scrollHeight
                        (children w ++ [set_innerHTML messageEl html])))]))
| step_user_rendered i userInput c :
    nth_error (tasks w) i = Some (K_user_rendered userInput) ->
    chat w = Some c ->
    step w (Resolve i)
      (mkWorld (children w ++ [loading_bubble (next_id w)])
         (max_scrollTop (children w ++ [loading_bubble (next_id w)]))
         (value w) (chat w) (listeners w) (S (next_id w))
         (update_nth i (K_send (loading_bubble (next_id w)) InSubmitHandler)
            (tasks w))
         (trace w ++ [E_append (loading_bubble (next_id w));
                      E_scrollTop (Z.of_N (scrollHeight
                        (children w ++ [loading_bubble (next_id w)])));
                      E_send userInput]))
| step_settle i loadingIndicator site o :
    nth_error (tasks w) i = Some (K_send loadingIndicator site) ->
    step w (Settle i o)
      (mkWorld (detach (el_id loadingIndicator) (children w))
         (scrollTop w) (value w) (chat w) (listeners w) (S (next_id w))
         (update_nth i
            (K_model_parse
               (mkElement (next_id w) "div" ["message"; "model-message"]%string [])
               (marked_parse (settled_text site o)) (caught_error o))
            (tasks w))
         (trace w ++ [E_remove loadingIndicator]))
| step_model_parse i messageEl html caught :
    nth_error (tasks w) i = Some (K_model_parse messageEl html caught) ->
    step w (Resolve i)
      (mkWorld (children w ++ [set_innerHTML messageEl html])
         (max_scrollTop (children w ++ [set_innerHTML messageEl html]))
         (value w) (chat w) (listeners w) (next_id w)
         (update_nth i (K_model_rendered caught) (tasks w))
         (trace w ++ [E_append (set_innerHTML messageEl html);
                      E_scrollTop (Z.of_N (scrollHeight
                        (children w ++ [set_innerHTML messageEl html])))]))
| step_model_rendered i caught :
    nth_error (tasks w) i = Some (K_model_rendered caught) ->
    step w (Resolve i)
      (mkWorld (children w) (scrollTop w) (value w) (chat w) (listeners w)
         (next_id w) (update_nth i K_done (tasks w))
         (trace w ++ logged caught)).

(** The submit listener of the page is registered on the form. *)
Definition submit_handler_registered (w : World) : Prop :=
  In submit_listener (listeners w).

(** The page after a missing credential: the error is shown and nothing
    else is set up. *)
Definition halted (w : World) : Prop :=
  children w = [error_element 0] /\
  trace w = [E_list_innerHTML error_markup] /\
  tasks w = [] /\ chat w = None /\ listeners w = [].

(** [html] is the rendering of the trimmed, non-empty text that the input
    field held when some submit event of [evs] was dispatched. *)
Definition from_submission (API_KEY : option jsstring) (evs : list Event)
  (html : jsstring) : Prop :=
  exists before after,
    evs = before ++ SubmitForm :: after /\
    JsString.trim (value (run before (boot API_KEY))) <> [] /\
    html = marked_parse (JsString.trim (value (run before (boot API_KEY)))).

(** What a suspended task will insert: a user bubble only for a submitted
    text, and otherwise no user bubble. *)
Definition task_origin (API_KEY : option jsstring) (evs : list Event)
  (k : Cont) : Prop :=
  match k with
  | K_user_parse _ html _ => from_submission API_KEY evs html
  | K_model_parse el _ _ => is_role user el = false
  | _ => True
  end.

(** ** Further readings of a page and of a run *)

(** Values passed to [console.error], oldest first. *)
Fixpoint console_errors (t : list Effect) : list JsThrown :=
  match t with
  | [] => []
  | E_console_error e :: r => e :: console_errors r
  | _ :: r => console_errors r
  end.

(** Values the program assigned to [chatInput.value], oldest first. *)
Fixpoint field_writes (t : list Effect) : list jsstring :=
  match t with
  | [] => []
  | E_setValue v :: r => v :: field_writes r
  | _ :: r => field_writes r
  end.

(** The conversation proper: what the list holds besides indicators. *)
Definition messages (l : list Element) : list Element :=
  filter (fun e => negb (is_loading e)) l.

(** The loading indicators in the list. *)
Definition indicators (l : list Element) : list Element :=
  filter is_loading l.

(** A text with something in it and no white space at either end. *)
Definition trimmed (m : jsstring) : Prop :=
  match m with
  | [] => False
  | c :: _ => JsString.is_ws c = false /\ JsString.is_ws (last m c) = false
  end.

(** Submit events of a run, and the errors its remote calls failed with. *)
Fixpoint submissions (evs : list Event) : nat :=
  match evs with
  | [] => 0
  | SubmitForm :: r => S (submissions r)
  | _ :: r => submissions r
  end.


(** A submission that has not reached its request yet. *)
Definition before_send (k : Cont) : nat :=
  match k with
  | K_user_parse _ _ _ | K_user_rendered _ => 1
  | _ => 0
  end.

(** The text a submission is about to send. *)
Definition outgoing (k : Cont) : option jsstring :=
  match k with
  | K_user_parse _ _ u | K_user_rendered u => Some u
  | _ => None
  end.


(** The three kinds of element the program builds with [createElement],
    and the one its error markup parses to: a [div] of class [message] and
    of one role; only a model-role element can be a loading indicator, and
    an indicator reads "Thinking...". *)
Definition bubble_classes (e : Element) : Prop :=
  localName e = "div"%string /\
  (classList e = ["message"; "user-message"]%string \/
   classList e = ["message"; "model-message"]%string \/
   (classList e = ["message"; "model-message"; "loading"]%string /\
    innerHTML e = lit "Thinking...")).

(** No remote call is in flight. *)
Definition no_call_pending (w : World) : Prop :=
  forall i k, nth_error (tasks w) i = Some k -> pending k = None.

(** The list shows a user bubble for the text [m]. *)
Definition shown (w : World) (m : jsstring) : Prop :=
  exists e, In e (children w) /\ is_role user e = true /\
            innerHTML e = marked_parse m.


(** ** Facts about the program *)

Lemma max_scrollTop_clamp (l : list Element) :
  Z.max 0 (Z.min (Z.of_N (scrollHeight l)) (max_scrollTop l)) = max_scrollTop l.
Proof. unfold max_scrollTop. lia. Qed.

Lemma nth_error_snoc_here {A} (l : list A) (x : A) :
  nth_error (l ++ [x]) (List.length l) = Some x.
Proof. rewrite nth_error_app2, Nat.sub_diag by lia. reflexivity. Qed.

Lemma update_nth_snoc {A} (l : list A) (x y : A) :
  update_nth (List.length l) y (l ++ [x]) = l ++ [y].
Proof. induction l as [|a l IH]; simpl; [reflexivity | now rewrite IH]. Qed.

Lemma dispatch_resolve (w : World) (i : nat) (k : Cont) :
  nth_error (tasks w) i = Some k ->
  dispatch (Resolve i) w = continue i (resume k) w.
Proof. intros H. unfold dispatch. rewrite H. reflexivity. Qed.

Lemma dispatch_settle (w : World) (i : nat) (k : Cont) (o : Outcome) :
  nth_error (tasks w) i = Some k ->
  dispatch (Settle i o) w = continue i (settle k o) w.
Proof. intros H. unfold dispatch. rewrite H. reflexivity. Qed.

Lemma submit_accepted (w : World) (c : JsString.code_unit) (u : jsstring) :
  listeners w = [submit_listener] ->
  JsString.trim (value w) = c :: u ->
  dispatch SubmitForm w =
  mkWorld (children w) (scrollTop w) [] (chat w) (listeners w)
    (S (next_id w))
    (tasks w ++ [K_user_parse
                   (mkElement (next_id w) "div" ["message"; "user-message"]%string [])
                   (marked_parse (c :: u)) (c :: u)])
    (trace w ++ [E_preventDefault; E_setValue []]).
Proof.
  intros Hl Ht. unfold dispatch. rewrite Hl. cbn.
  unfold start, on_submit. cbn. rewrite Ht. cbn.
  unfold spawn. cbn. rewrite <- app_assoc, Hl. reflexivity.
Qed.

Lemma submit_blank (w : World) :
  listeners w = [submit_listener] ->
  JsString.trim (value w) = [] ->
  dispatch SubmitForm w =
  mkWorld (children w) (scrollTop w) (value w) (chat w) (listeners w)
    (next_id w) (tasks w) (trace w ++ [E_preventDefault]).
Proof.
  intros Hl Ht. unfold dispatch. rewrite Hl. cbn.
  unfold start, on_submit. cbn. rewrite Ht. cbn.
  rewrite Hl. reflexivity.
Qed.

Lemma resolve_user_parse (w : World) (i : nat) messageEl html userInput :
  nth_error (tasks w) i = Some (K_user_parse messageEl html userInput) ->
  dispatch (Resolve i) w =
  mkWorld (children w ++ [set_innerHTML messageEl html])
    (max_scrollTop (children w ++ [set_innerHTML messageEl html]))
    (value w) (chat w) (listeners w) (next_id w)
    (update_nth i (K_user_rendered userInput) (tasks w))
    (trace w ++ [E_append (set_innerHTML messageEl html);
                 E_scrollTop (Z.of_N (scrollHeight
                    (children w ++ [set_innerHTML messageEl html])))]).
Proof.
  intros H. rewrite (dispatch_resolve _ _ _ H).
  unfold continue, set_task. cbn.
  rewrite max_scrollTop_clamp, <- app_assoc. reflexivity.
Qed.

Lemma resolve_user_rendered (w : World) (i : nat) userInput (c : Chat) :
  nth_error (tasks w) i = Some (K_user_rendered userInput) ->
  chat w = Some c ->
  dispatch (Resolve i) w =
  mkWorld (children w ++ [loading_bubble (next_id w)])
    (max_scrollTop (children w ++ [loading_bubble (next_id w)]))
    (value w) (chat w) (listeners w) (S (next_id w))
    (update_nth i (K_send (loading_bubble (next_id w)) InSubmitHandler) (tasks w))
    (trace w ++ [E_append (loading_bubble (next_id w));
                 E_scrollTop (Z.of_N (scrollHeight
                    (children w ++ [loading_bubble (next_id w)])));
                 E_send userInput]).
Proof.
  intros H Hc. rewrite (dispatch_resolve _ _ _ H).
  unfold continue, set_task. cbn. unfold try_send. cbn. rewrite Hc. cbn.
  rewrite max_scrollTop_clamp, <- !app_assoc. reflexivity.
Qed.

Lemma settle_reply (w : World) (i : nat) loadingIndicator site text :
  nth_error (tasks w) i = Some (K_send loadingIndicator site) ->
  dispatch (Settle i (Reply text)) w =
  mkWorld (detach (el_id loadingIndicator) (children w))
    (scrollTop w) (value w) (chat w) (listeners w) (S (next_id w))
    (update_nth i
       (K_model_parse
          (mkElement (next_id w) "div" ["message"; "model-message"]%string [])
          (marked_parse text) None)
       (tasks w))
    (trace w ++ [E_remove loadingIndicator]).
Proof.
  intros H. rewrite (dispatch_settle _ _ _ _ H).
  unfold continue, set_task. cbn. reflexivity.
Qed.

Lemma settle_fault (w : World) (i : nat) loadingIndicator site error :
  nth_error (tasks w) i = Some (K_send loadingIndicator site) ->
  dispatch (Settle i (Fault error)) w =
  mkWorld (detach (el_id loadingIndicator) (children w))
    (scrollTop w) (value w) (chat w) (listeners w) (S (next_id w))
    (update_nth i
       (K_model_parse
          (mkElement (next_id w) "div" ["message"; "model-message"]%string [])
          (marked_parse (catch_text site error)) (Some error))
       (tasks w))
    (trace w ++ [E_remove loadingIndicator]).
Proof.
  intros H. rewrite (dispatch_settle _ _ _ _ H).
  unfold continue, set_task. cbn. reflexivity.
Qed.

Lemma resolve_model_parse (w : World) (i : nat) messageEl html caught :
  nth_error (tasks w) i = Some (K_model_parse messageEl html caught) ->
  dispatch (Resolve i) w =
  mkWorld (children w ++ [set_innerHTML messageEl html])
    (max_scrollTop (children w ++ [set_innerHTML messageEl html]))
    (value w) (chat w) (listeners w) (next_id w)
    (update_nth i (K_model_rendered caught) (tasks w))
    (trace w ++ [E_append (set_innerHTML messageEl html);
                 E_scrollTop (Z.of_N (scrollHeight
                    (children w ++ [set_innerHTML messageEl html])))]).
Proof.
  intros H. rewrite (dispatch_resolve _ _ _ H).
  unfold continue, set_task. cbn.
  rewrite max_scrollTop_clamp, <- app_assoc. reflexivity.
Qed.

Lemma resolve_model_rendered (w : World) (i : nat) caught :
  nth_error (tasks w) i = Some (K_model_rendered caught) ->
  dispatch (Resolve i) w =
  mkWorld (children w) (scrollTop w) (value w) (chat w) (listeners w)
    (next_id w) (update_nth i K_done (tasks w))
    (trace w ++ logged caught).
Proof.
  intros H. rewrite (dispatch_resolve _ _ _ H).
  unfold continue, set_task. destruct caught; cbn; [reflexivity|].
  rewrite app_nil_r. reflexivity.
Qed.

Lemma settle_outcome (w : World) (i : nat) loadingIndicator site o :
  nth_error (tasks w) i = Some (K_send loadingIndicator site) ->
  dispatch (Settle i o) w =
  mkWorld (detach (el_id loadingIndicator) (children w))
    (scrollTop w) (value w) (chat w) (listeners w) (S (next_id w))
    (update_nth i
       (K_model_parse
          (mkElement (next_id w) "div" ["message"; "model-message"]%string [])
          (marked_parse (settled_text site o)) (caught_error o))
       (tasks w))
    (trace w ++ [E_remove loadingIndicator]).
Proof.
  intros H. destruct o; [apply settle_reply with site | apply settle_fault]; exact H.
Qed.

Lemma update_nth_same {A} (l : list A) (i : nat) (x : A) :
  nth_error l i = Some x -> update_nth i x l = l.
Proof.
  revert i. induction l as [|a l IH]; intros [|i] H; simpl in *;
    try discriminate; try reflexivity.
  - congruence.
  - now rewrite IH.
Qed.

Lemma set_task_same (w : World) (i : nat) (k : Cont) :
  nth_error (tasks w) i = Some k -> set_task i k w = w.
Proof.
  intros H. unfold set_task. rewrite (update_nth_same _ _ _ H).
  destruct w; reflexivity.
Qed.

Lemma dispatch_step (ev : Event) (w : World) :
  consistent w -> step w ev (dispatch ev w).
Proof.
  intros C. destruct ev as [v| |i|i o].
  - apply step_type.
  - destruct (one_listener w C) as [Hl|Hl].
    + unfold dispatch. rewrite Hl. apply step_idle.
    + destruct (JsString.trim (value w)) as [|c u] eqn:Ht.
      * rewrite (submit_blank w Hl Ht). now apply step_blank.
      * rewrite (submit_accepted w c u Hl Ht). now apply step_submit.
  - destruct (nth_error (tasks w) i) as [k|] eqn:Hk.
    2:{ unfold dispatch. rewrite Hk. apply step_idle. }
    destruct k.
    + rewrite (dispatch_resolve _ _ _ Hk). unfold continue. cbn.
      rewrite (set_task_same _ _ _ Hk). apply step_idle.
    + rewrite (resolve_user_parse _ _ _ _ _ Hk). now apply step_user_parse.
    + destruct (chat w) as [c|] eqn:Hc.
      * rewrite (resolve_user_rendered _ _ _ c Hk Hc). now apply step_user_rendered with c.
      * destruct (chat_ready w C Hc) as [Ht _]. rewrite Ht in Hk. destruct i; discriminate.
    + rewrite (dispatch_resolve _ _ _ Hk). unfold continue. cbn.
      rewrite (set_task_same _ _ _ Hk). apply step_idle.
    + rewrite (resolve_model_parse _ _ _ _ _ Hk). now apply step_model_parse.
    + rewrite (resolve_model_rendered _ _ _ Hk). now apply step_model_rendered.
  - destruct (nth_error (tasks w) i) as [k|] eqn:Hk.
    2:{ unfold dispatch. rewrite Hk. apply step_idle. }
    destruct k;
      try (rewrite (dispatch_settle _ _ _ _ Hk); unfold continue; cbn;
           rewrite (set_task_same _ _ _ Hk); apply step_idle).
    rewrite (settle_outcome _ _ _ _ o Hk). now apply step_settle.
Qed.

Lemma nth_error_update_nth_inv {A} (l : list A) (i j : nat) (x y : A) :
  nth_error (update_nth i x l) j = Some y ->
  (j = i /\ y = x) \/ (j <> i /\ nth_error l j = Some y).
Proof.
  revert i j. induction l as [|a l IH]; intros i j H.
  - destruct i, j; discriminate.
  - destruct i as [|i], j as [|j]; simpl in H.
    + left. split; congruence.
    + right. split; [lia | exact H].
    + right. split; [lia | exact H].
    + destruct (IH _ _ H) as [[-> ->]|[Hn He]]; [left | right]; auto.
Qed.

Lemma nth_error_snoc_inv {A} (l : list A) (j : nat) (x y : A) :
  nth_error (l ++ [x]) j = Some y ->
  nth_error l j = Some y \/ (j = List.length l /\ y = x).
Proof.
  intros H. destruct (Nat.lt_ge_cases j (List.length l)) as [Hlt|Hge].
  - rewrite nth_error_app1 in H by exact Hlt. now left.
  - rewrite nth_error_app2 in H by exact Hge.
    destruct (j - List.length l) as [|d] eqn:E; simpl in H.
    + right. split; [lia | congruence].
    + destruct d; discriminate.
Qed.

Lemma NoDup_map_snoc {A B} (f : A -> B) (l : list A) (x : A) :
  NoDup (map f l) -> ~ In (f x) (map f l) -> NoDup (map f (l ++ [x])).
Proof.
  intros Hn Hx. rewrite map_app. simpl.
  apply NoDup_app; [exact Hn | repeat constructor; simpl; tauto |].
  intros a Ha [<-|[]]. exact (Hx Ha).
Qed.

Lemma in_detach (id : nat) (l : list Element) (e : Element) :
  In e (detach id l) <-> In e l /\ el_id e <> id.
Proof.
  unfold detach. rewrite filter_In, negb_true_iff, Nat.eqb_neq. tauto.
Qed.

Lemma in_map_detach (id x : nat) (l : list Element) :
  In x (map el_id (detach id l)) -> In x (map el_id l).
Proof.
  rewrite !in_map_iff. intros [e [He Hi]]. apply in_detach in Hi.
  exists e. tauto.
Qed.

Lemma NoDup_map_detach (id : nat) (l : list Element) :
  NoDup (map el_id l) -> NoDup (map el_id (detach id l)).
Proof.
  induction l as [|a l IH]; simpl; intros H; [constructor|].
  inversion H as [|? ? Hn Hd]; subst.
  destruct (negb (el_id a =? id)); simpl; auto.
  constructor; auto. intros Hi. apply Hn. eapply in_map_detach, Hi.
Qed.

Ltac inv_nth :=
  repeat match goal with
  | H : nth_error (update_nth _ _ _) _ = Some _ |- _ =>
      apply nth_error_update_nth_inv in H; destruct H as [[? ?]|[? H]]
  | H : nth_error (_ ++ [_]) _ = Some _ |- _ =>
      apply nth_error_snoc_inv in H; destruct H as [H|[? ?]]
  end;
  subst; cbn in *; try discriminate;
  repeat match goal with
  | H : Some _ = Some _ |- _ => injection H as H; subst
  end; cbn in *.

Ltac pose_new H :=
  let T := type of H in
  lazymatch goal with
  | _ : T |- _ => fail
  | _ => pose proof H
  end.

Ltac saturate C :=
  repeat match goal with
  | Hn : nth_error (tasks ?w) ?i = Some ?k, Hh : held ?k = Some ?e |- _ =>
      first [ pose_new (proj1 (held_fresh w C i k e Hn Hh))
            | pose_new (proj2 (held_fresh w C i k e Hn Hh)) ]
  | Hn : nth_error (tasks ?w) ?i = Some ?k, Hp : pending ?k = Some ?e |- _ =>
      first [ pose_new (proj1 (pending_in w C i k e Hn Hp))
            | pose_new (proj2 (pending_in w C i k e Hn Hp)) ]
  | Hn : nth_error (tasks ?w) ?i = Some (K_user_parse ?e ?h ?u) |- _ =>
      first [ pose_new (proj1 (held_fresh w C i _ e Hn eq_refl))
            | pose_new (proj2 (held_fresh w C i _ e Hn eq_refl)) ]
  | Hn : nth_error (tasks ?w) ?i = Some (K_model_parse ?e ?h ?u) |- _ =>
      first [ pose_new (proj1 (held_fresh w C i _ e Hn eq_refl))
            | pose_new (proj2 (held_fresh w C i _ e Hn eq_refl)) ]
  | Hn : nth_error (tasks ?w) ?i = Some (K_send ?e ?s) |- _ =>
      first [ pose_new (proj1 (pending_in w C i _ e Hn eq_refl))
            | pose_new (proj2 (pending_in w C i _ e Hn eq_refl)) ]
  | H : In ?e (children ?w) |- _ => pose_new (ids_fresh w C e H)
  end.

Lemma in_ids_fresh (w : World) (x : nat) :
  consistent w -> In x (map el_id (children w)) -> x < next_id w.
Proof.
  intros C H. apply in_map_iff in H. destruct H as [e [<- He]].
  now apply (ids_fresh w C).
Qed.

Lemma no_task_without_chat (w : World) (i : nat) (k : Cont) :
  consistent w -> nth_error (tasks w) i = Some k -> chat w = None -> False.
Proof.
  intros C H Hc. destruct (chat_ready w C Hc) as [Ht _].
  rewrite Ht in H. destruct i; discriminate.
Qed.

(** A task inserts the element it holds. *)
Lemma consistent_insert (w : World) (i : nat) (k k' : Cont) (el : Element)
  (html : jsstring) (st : Z) (tr : list Effect) :
  consistent w ->
  nth_error (tasks w) i = Some k -> held k = Some el ->
  held k' = None -> pending k' = None ->
  consistent
    (mkWorld (children w ++ [set_innerHTML el html]) st (value w) (chat w)
       (listeners w) (next_id w) (update_nth i k' (tasks w)) tr).
Proof.
  intros C Hk Hel Hh' Hp'.
  destruct (held_fresh w C _ _ _ Hk Hel) as [Hlt Hnin].
  constructor; cbn.
  - apply NoDup_map_snoc; [apply C | exact Hnin].
  - intros e He. apply in_app_iff in He. destruct He as [He|[<-|[]]]; cbn.
    + now apply (ids_fresh w C).
    + exact Hlt.
  - intros j k0 e Hn Hh. inv_nth; [congruence|]. saturate C.
    split; [assumption|]. rewrite map_app, in_app_iff. cbn.
    intros [Hi|[He|[]]]; [tauto|].
    assert (i = j) by (eapply (held_inj w C); eauto). congruence.
  - intros a b ka kb e e' Ha Hb Hha Hhb He. inv_nth; try congruence.
    eapply (held_inj w C); eauto.
  - intros j k0 e Hn Hp. inv_nth; [congruence|]. saturate C.
    split; [apply in_app_iff; now left | assumption].
  - intros a b ka kb e e' Ha Hb Hpa Hpb He. inv_nth; try congruence.
    eapply (pending_inj w C); eauto.
  - intros Hc. exfalso. eapply no_task_without_chat; eauto.
  - apply C.
Qed.

Lemma step_consistent (w w' : World) (ev : Event) :
  consistent w -> step w ev w' -> consistent w'.
Proof.
  intros C S. destruct S.
  - constructor; cbn; apply C.
  - exact C.
  - constructor; cbn; apply C.
  - (* a submission is accepted *)
    constructor; cbn.
    + apply C.
    + intros e He. saturate C. lia.
    + intros i k e Hn Hh. inv_nth; saturate C.
      * split; [lia | assumption].
      * split; [lia|]. intros Hi. apply (in_ids_fresh w _ C) in Hi. lia.
    + intros i j k k' e e' Hi Hj Hh Hh' He. inv_nth; saturate C;
        solve [ eapply (held_inj w C); eauto | lia ].
    + intros i k e Hn Hp. inv_nth. eapply (pending_in w C); eauto.
    + intros i j k k' e e' Hi Hj Hp Hp' He. inv_nth. eapply (pending_inj w C); eauto.
    + intros Hc. destruct (chat_ready w C Hc) as [_ Hl]. congruence.
    + apply C.
  - eapply consistent_insert; eauto.
  - (* the loading indicator is shown and the request issued *)
    rename H into Hk.
    constructor; cbn.
    + apply NoDup_map_snoc; [apply C|]. cbn. intros Hi.
      apply (in_ids_fresh w _ C) in Hi. lia.
    + intros e He. apply in_app_iff in He. destruct He as [He|[<-|[]]]; cbn.
      * saturate C. lia.
      * lia.
    + intros j k0 e Hn Hh. inv_nth. saturate C.
      split; [lia|]. rewrite map_app, in_app_iff. cbn.
      intros [Hi|[He|[]]]; [tauto | lia].
    + intros a b ka kb e e' Ha Hb Hha Hhb He. inv_nth.
      eapply (held_inj w C); eauto.
    + intros j k0 e Hn Hp. inv_nth.
      * split; [apply in_app_iff; right; now left | reflexivity].
      * saturate C. split; [apply in_app_iff; now left | assumption].
    + intros a b ka kb e e' Ha Hb Hpa Hpb He. inv_nth; saturate C;
        solve [ reflexivity | lia | eapply (pending_inj w C); eauto ].
    + intros Hc. congruence.
    + apply C.
  - (* the remote call settles *)
    rename H into Hk.
    constructor; cbn.
    + apply NoDup_map_detach, C.
    + intros e He. apply in_detach in He. destruct He as [He _].
      saturate C. lia.
    + intros j k0 e Hn Hh. inv_nth.
      * split; [lia|]. intros Hi. apply in_map_detach in Hi.
        apply (in_ids_fresh w _ C) in Hi. lia.
      * saturate C. split; [lia|]. intros Hi. apply in_map_detach in Hi. tauto.
    + intros a b ka kb e e' Ha Hb Hha Hhb He. inv_nth; saturate C;
        solve [ reflexivity | lia | eapply (held_inj w C); eauto ].
    + intros j k0 e Hn Hp. inv_nth. saturate C.
      split; [|assumption]. apply in_detach. split; [assumption|].
      intros He. assert (j = i) by (eapply (pending_inj w C); eauto; reflexivity).
      congruence.
    + intros a b ka kb e e' Ha Hb Hpa Hpb He. inv_nth.
      eapply (pending_inj w C); eauto.
    + intros Hc. exfalso. eapply no_task_without_chat; eauto.
    + apply C.
  - eapply consistent_insert; eauto.
  - (* the async function returns *)
    rename H into Hk.
    constructor; cbn; try apply C.
    + intros j k0 e Hn Hh. inv_nth. eapply (held_fresh w C); eauto.
    + intros a b ka kb e e' Ha Hb Hha Hhb He. inv_nth.
      eapply (held_inj w C); eauto.
    + intros j k0 e Hn Hp. inv_nth. eapply (pending_in w C); eauto.
    + intros a b ka kb e e' Ha Hb Hpa Hpb He. inv_nth.
      eapply (pending_inj w C); eauto.
    + intros Hc. exfalso. eapply no_task_without_chat; eauto.
Qed.

Lemma boot_present (k : jsstring) :
  JsString.truthy k = true ->
  boot (Some k) =
  mkWorld [loading_bubble 0] (max_scrollTop [loading_bubble 0]) []
    (Some (mkChat k "gemini-2.5-flash" systemInstruction))
    [submit_listener] 1 [K_send (loading_bubble 0) InInitializeChat]
    [E_append (loading_bubble 0);
     E_scrollTop (Z.of_N (scrollHeight [loading_bubble 0]));
     E_send (lit "Hello")].
Proof.
  intros Hk. unfold boot, start, main. cbn. rewrite Hk. cbn.
  unfold spawn. cbn. rewrite max_scrollTop_clamp. reflexivity.
Qed.

Lemma boot_absent (API_KEY : option jsstring) :
  credential_absent API_KEY ->
  boot API_KEY =
  mkWorld [error_element 0] 0 [] None [] 1 [] [E_list_innerHTML error_markup].
Proof. intros [-> | ->]; reflexivity. Qed.

Lemma absent_or_present (API_KEY : option jsstring) :
  credential_absent API_KEY \/
  exists k, API_KEY = Some k /\ JsString.truthy k = true.
Proof.
  destruct API_KEY as [[|c k]|]; unfold credential_absent; eauto.
Qed.

Lemma consistent_boot (API_KEY : option jsstring) : consistent (boot API_KEY).
Proof.
  destruct (absent_or_present API_KEY) as [Ha|[k [-> Hk]]].
  - rewrite (boot_absent _ Ha). constructor; cbn; auto.
    + repeat constructor. simpl. tauto.
    + intros e [<-|[]]. cbn. lia.
    + intros [|i] ? ? H; discriminate H.
    + intros [|i] ? ? ? ? ? H; discriminate H.
    + intros [|i] ? ? H; discriminate H.
    + intros [|i] ? ? ? ? ? H; discriminate H.
  - rewrite (boot_present _ Hk). constructor; cbn; auto.
    + repeat constructor. simpl. tauto.
    + intros e [<-|[]]. cbn. lia.
    + intros [|[|i]] ? ? H Hh; try discriminate H.
      injection H as <-. discriminate Hh.
    + intros [|[|i]] ? ? ? ? ? H ? Hh; try discriminate H.
      injection H as <-. discriminate Hh.
    + intros [|[|i]] ? ? H Hp; try discriminate H.
      injection H as <-. injection Hp as <-. auto.
    + intros [|[|i]] [|[|j]] ? ? ? ? H H'; try discriminate H; try discriminate H'.
      reflexivity.
    + discriminate.
Qed.

Lemma run_snoc (evs : list Event) (ev : Event) (w : World) :
  run (evs ++ [ev]) w = dispatch ev (run evs w).
Proof. unfold run. rewrite fold_left_app. reflexivity. Qed.

Lemma run_app (evs evs' : list Event) (w : World) :
  run (evs ++ evs') w = run evs' (run evs w).
Proof. unfold run. apply fold_left_app. Qed.

Lemma consistent_run (evs : list Event) (w : World) :
  consistent w -> consistent (run evs w).
Proof.
  revert w. induction evs as [|ev evs IH]; intros w C; [exact C|].
  apply IH. eapply step_consistent; [exact C | now apply dispatch_step].
Qed.

Lemma consistent_reachable (API_KEY : option jsstring) (evs : list Event) :
  consistent (run evs (boot API_KEY)).
Proof. apply consistent_run, consistent_boot. Qed.

(** *** A submission, from the event to the request *)

Lemma run_cons (ev : Event) (evs : list Event) (w : World) :
  run (ev :: evs) w = run evs (dispatch ev w).
Proof. reflexivity. Qed.

Lemma run_nil (w : World) : run [] w = w.
Proof. reflexivity. Qed.

Lemma submission_rendered (w : World) (c : JsString.code_unit) (u : jsstring) :
  listeners w = [submit_listener] ->
  JsString.trim (value w) = c :: u ->
  run [SubmitForm; Resolve (List.length (tasks w))] w =
  mkWorld (children w ++ [user_bubble (next_id w) (c :: u)])
    (max_scrollTop (children w ++ [user_bubble (next_id w) (c :: u)]))
    [] (chat w) (listeners w) (S (next_id w))
    (tasks w ++ [K_user_rendered (c :: u)])
    (trace w ++ [E_preventDefault; E_setValue [];
                 E_append (user_bubble (next_id w) (c :: u));
                 E_scrollTop (Z.of_N (scrollHeight
                    (children w ++ [user_bubble (next_id w) (c :: u)])))]).
Proof.
  intros Hl Ht. rewrite !run_cons, run_nil.
  rewrite (submit_accepted w c u Hl Ht).
  erewrite resolve_user_parse by (cbn; apply nth_error_snoc_here).
  cbn. rewrite update_nth_snoc, <- app_assoc. reflexivity.
Qed.

Lemma submission_sent (w : World) (c : JsString.code_unit) (u : jsstring)
  (session : Chat) :
  listeners w = [submit_listener] ->
  chat w = Some session ->
  JsString.trim (value w) = c :: u ->
  run [SubmitForm; Resolve (List.length (tasks w));
       Resolve (List.length (tasks w))] w =
  mkWorld
    (children w ++ [user_bubble (next_id w) (c :: u);
                    loading_bubble (S (next_id w))])
    (max_scrollTop
       (children w ++ [user_bubble (next_id w) (c :: u);
                       loading_bubble (S (next_id w))]))
    [] (chat w) (listeners w) (S (S (next_id w)))
    (tasks w ++ [K_send (loading_bubble (S (next_id w))) InSubmitHandler])
    (trace w ++ [E_preventDefault; E_setValue [];
                 E_append (user_bubble (next_id w) (c :: u));
                 E_scrollTop (Z.of_N (scrollHeight
                    (children w ++ [user_bubble (next_id w) (c :: u)])));
                 E_append (loading_bubble (S (next_id w)));
                 E_scrollTop (Z.of_N (scrollHeight
                    (children w ++ [user_bubble (next_id w) (c :: u);
                                    loading_bubble (S (next_id w))])));
                 E_send (c :: u)]).
Proof.
  intros Hl Hc Ht.
  change (run [SubmitForm; Resolve (List.length (tasks w));
               Resolve (List.length (tasks w))] w)
    with (dispatch (Resolve (List.length (tasks w)))
            (run [SubmitForm; Resolve (List.length (tasks w))] w)).
  rewrite (submission_rendered w c u Hl Ht).
  erewrite resolve_user_rendered;
    [| cbn; apply nth_error_snoc_here | cbn; exact Hc].
  cbn. rewrite update_nth_snoc, <- !app_assoc. reflexivity.
Qed.

Lemma nth_error_update_nth_here {A} (l : list A) (i : nat) (x y : A) :
  nth_error l i = Some x -> nth_error (update_nth i y l) i = Some y.
Proof.
  revert i. induction l as [|a l IH]; intros [|i] H; simpl in *;
    try discriminate; auto.
Qed.

Lemma update_nth_twice {A} (l : list A) (i : nat) (x y : A) :
  update_nth i y (update_nth i x l) = update_nth i y l.
Proof.
  revert i. induction l as [|a l IH]; intros [|i]; simpl; auto.
  now rewrite IH.
Qed.

(** *** An exchange, from the settlement of the call to the end *)

Lemma exchange_settled (w : World) (i : nat) (loadingIndicator : Element)
  (site : Site) (o : Outcome) :
  nth_error (tasks w) i = Some (K_send loadingIndicator site) ->
  run [Settle i o; Resolve i] w =
  mkWorld
    (detach (el_id loadingIndicator) (children w) ++
       [model_bubble (next_id w) (settled_text site o)])
    (max_scrollTop
       (detach (el_id loadingIndicator) (children w) ++
          [model_bubble (next_id w) (settled_text site o)]))
    (value w) (chat w) (listeners w) (S (next_id w))
    (update_nth i (K_model_rendered (caught_error o)) (tasks w))
    (trace w ++
       [E_remove loadingIndicator;
        E_append (model_bubble (next_id w) (settled_text site o));
        E_scrollTop (Z.of_N (scrollHeight
          (detach (el_id loadingIndicator) (children w) ++
             [model_bubble (next_id w) (settled_text site o)])))]).
Proof.
  intros Hk. rewrite !run_cons, run_nil.
  rewrite (settle_outcome w i _ _ o Hk).
  erewrite resolve_model_parse
    by (cbn; eapply nth_error_update_nth_here; exact Hk).
  cbn. rewrite update_nth_twice, <- app_assoc. reflexivity.
Qed.

Lemma exchange_finished (w : World) (i : nat) (loadingIndicator : Element)
  (site : Site) (o : Outcome) :
  nth_error (tasks w) i = Some (K_send loadingIndicator site) ->
  run [Settle i o; Resolve i; Resolve i] w =
  mkWorld
    (detach (el_id loadingIndicator) (children w) ++
       [model_bubble (next_id w) (settled_text site o)])
    (max_scrollTop
       (detach (el_id loadingIndicator) (children w) ++
          [model_bubble (next_id w) (settled_text site o)]))
    (value w) (chat w) (listeners w) (S (next_id w))
    (update_nth i K_done (tasks w))
    (trace w ++
       [E_remove loadingIndicator;
        E_append (model_bubble (next_id w) (settled_text site o));
        E_scrollTop (Z.of_N (scrollHeight
          (detach (el_id loadingIndicator) (children w) ++
             [model_bubble (next_id w) (settled_text site o)])))] ++
       logged (caught_error o)).
Proof.
  intros Hk.
  change (run [Settle i o; Resolve i; Resolve i] w)
    with (dispatch (Resolve i) (run [Settle i o; Resolve i] w)).
  rewrite (exchange_settled w i _ _ o Hk).
  erewrite resolve_model_rendered
    by (cbn; eapply nth_error_update_nth_here; exact Hk).
  cbn. rewrite update_nth_twice, <- app_assoc. reflexivity.
Qed.

(** *** Reading traces *)

Lemma sends_app (t t' : list Effect) : sends (t ++ t') = sends t ++ sends t'.
Proof.
  induction t as [|e t IH]; simpl; [reflexivity|].
  destruct e; simpl; rewrite IH; reflexivity.
Qed.


Lemma appended_app (p : Element -> bool) (t t' : list Effect) :
  appended p (t ++ t') = appended p t ++ appended p t'.
Proof.
  induction t as [|e t IH]; simpl; [reflexivity|].
  destruct e; simpl; rewrite ?IH; try reflexivity.
  destruct (p el); simpl; rewrite ?IH; reflexivity.
Qed.

(** *** Missing credential *)

Lemma halted_dispatch (ev : Event) (w : World) :
  halted w -> halted (dispatch ev w).
Proof.
  intros (Hc & Ht & Hk & Hs & Hl). destruct ev as [v| |i|i o]; cbn.
  - repeat split; assumption.
  - rewrite Hl. cbn. repeat split; assumption.
  - rewrite Hk. destruct i; cbn; repeat split; assumption.
  - rewrite Hk. destruct i; cbn; repeat split; assumption.
Qed.

Lemma halted_run (evs : list Event) (w : World) :
  halted w -> halted (run evs w).
Proof.
  revert w. induction evs as [|ev evs IH]; intros w H; [exact H|].
  apply IH, halted_dispatch, H.
Qed.

(** C1 (as amended): when the credential is absent (undefined or the empty
    string) the list holds exactly one element, the model-styled error
    message; no chat session is created and no request is sent; module
    evaluation stops at the [throw], so the submit listener is not
    registered, and whatever is typed or submitted afterwards runs no code
    of the page: the list, the trace and the empty task table stay as they
    are. *)
Theorem C1_missing_credential_halts (API_KEY : option jsstring) :
  credential_absent API_KEY ->
  let w := boot API_KEY in
  main API_KEY initial_world =
    (Throw (ErrorObj (lit "Error") (lit "API_KEY not set")), w) /\
  children w = [error_element 0] /\
  is_role model (error_element 0) = true /\
  chat w = None /\
  sends (trace w) = [] /\
  ~ submit_handler_registered w /\
  forall evs,
    let w' := run evs w in
    children w' = children w /\ trace w' = trace w /\
    tasks w' = [] /\ chat w' = None /\ ~ submit_handler_registered w'.
Proof.
  intros Ha w. subst w. rewrite (boot_absent _ Ha).
  split; [destruct Ha as [-> | ->]; reflexivity|].
  do 5 (split; [first [reflexivity | cbn; tauto]|]).
  intros evs w'.
  assert (H : halted w') by (apply halted_run; repeat split; reflexivity).
  destruct H as (Hc & Ht & Hk & Hs & Hl).
  cbn. unfold submit_handler_registered. rewrite Hl. cbn. tauto.
Qed.

(** *** Blank input *)

Lemma trimStart_nil_iff (s : jsstring) :
  JsString.trimStart s = [] <-> forallb JsString.is_ws s = true.
Proof.
  induction s as [|c r IH]; simpl.
  - tauto.
  - destruct (JsString.is_ws c); simpl.
    + exact IH.
    + split; discriminate.
Qed.

Lemma trimStart_head (s : jsstring) :
  match JsString.trimStart s with
  | [] => True
  | c :: _ => JsString.is_ws c = false
  end.
Proof.
  induction s as [|c r IH]; simpl; [exact I|].
  destruct (JsString.is_ws c) eqn:E; [exact IH | exact E].
Qed.

Lemma forallb_rev {A} (f : A -> bool) (l : list A) :
  forallb f (rev l) = forallb f l.
Proof.
  induction l as [|a l IH]; simpl; [reflexivity|].
  rewrite forallb_app, IH. simpl. rewrite andb_true_r. apply andb_comm.
Qed.

(** [trim] yields the empty string exactly on the strings that are empty
    or made of white space only. *)
Lemma trim_nil_iff (s : jsstring) :
  JsString.trim s = [] <-> forallb JsString.is_ws s = true.
Proof.
  unfold JsString.trim, JsString.trimEnd. rewrite <- trimStart_nil_iff.
  split.
  - intros H.
    assert (H1 : JsString.trimStart (rev (JsString.trimStart s)) = []).
    { rewrite <- (rev_involutive (JsString.trimStart (rev (JsString.trimStart s)))), H.
      reflexivity. }
    apply trimStart_nil_iff in H1. rewrite forallb_rev in H1.
    pose proof (trimStart_head s) as Hh.
    destruct (JsString.trimStart s) as [|c r]; [reflexivity|].
    simpl in H1. rewrite Hh in H1. discriminate.
  - intros ->. reflexivity.
Qed.

(** C4: when the input field is empty or holds white space only, a submit
    event appends nothing to the list, sends nothing to the chat session,
    starts no task and leaves the input field, the scroll position and the
    rest of the page as they are; the handler only cancels the default
    action of the event. *)
Theorem C4_blank_submit_is_inert (w : World) :
  listeners w = [submit_listener] ->
  forallb JsString.is_ws (value w) = true ->
  let w' := dispatch SubmitForm w in
  children w' = children w /\
  sends (trace w') = sends (trace w) /\
  value w' = value w /\
  tasks w' = tasks w /\
  scrollTop w' = scrollTop w /\
  next_id w' = next_id w /\
  chat w' = chat w /\
  listeners w' = listeners w /\
  trace w' = trace w ++ [E_preventDefault].
Proof.
  intros Hl Hws w'. subst w'.
  apply trim_nil_iff in Hws.
  rewrite (submit_blank w Hl Hws). cbn.
  rewrite sends_app. cbn. rewrite app_nil_r. repeat split; reflexivity.
Qed.

(** *** What never changes after startup *)

Lemma step_static (w w' : World) (ev : Event) :
  step w ev w' -> listeners w' = listeners w /\ chat w' = chat w.
Proof. intros S. destruct S; cbn; auto. Qed.

Lemma step_trace (w w' : World) (ev : Event) :
  step w ev w' -> exists d, trace w' = trace w ++ d.
Proof.
  intros S. destruct S; cbn; eauto.
  - exists []. now rewrite app_nil_r.
  - exists []. now rewrite app_nil_r.
Qed.

Lemma run_static (evs : list Event) (w : World) :
  consistent w ->
  listeners (run evs w) = listeners w /\ chat (run evs w) = chat w.
Proof.
  revert w. induction evs as [|ev evs IH]; intros w C; [auto|].
  rewrite run_cons.
  pose proof (dispatch_step ev w C) as S.
  destruct (step_static _ _ _ S) as [Hl Hc].
  destruct (IH _ (step_consistent _ _ _ C S)) as [Hl' Hc'].
  split; congruence.
Qed.

Lemma run_trace (evs : list Event) (w : World) :
  consistent w -> exists d, trace (run evs w) = trace w ++ d.
Proof.
  revert w. induction evs as [|ev evs IH]; intros w C.
  - exists []. now rewrite app_nil_r.
  - rewrite run_cons.
    pose proof (dispatch_step ev w C) as S.
    destruct (step_trace _ _ _ S) as [d Hd].
    destruct (IH _ (step_consistent _ _ _ C S)) as [d' Hd'].
    exists (d ++ d'). rewrite Hd', Hd, app_assoc. reflexivity.
Qed.

Lemma present_static (k : jsstring) (evs : list Event) :
  JsString.truthy k = true ->
  listeners (run evs (boot (Some k))) = [submit_listener] /\
  chat (run evs (boot (Some k))) =
    Some (mkChat k "gemini-2.5-flash" systemInstruction).
Proof.
  intros Hk.
  destruct (run_static evs _ (consistent_boot (Some k))) as [Hl Hc].
  rewrite Hl, Hc, (boot_present _ Hk). auto.
Qed.

(** *** Scrolling *)

Lemma appends_scrolled_app (t d : list Effect) :
  appends_scrolled t = true -> appends_scrolled d = true ->
  appends_scrolled (t ++ d) = true.
Proof.
  intros Ht Hd. induction t as [|e t IH]; [exact Hd|].
  destruct e; simpl in *; auto.
  destruct t as [|[] t']; try discriminate; simpl in *; auto.
Qed.

Lemma step_appends_scrolled (w w' : World) (ev : Event) :
  step w ev w' ->
  appends_scrolled (trace w) = true -> appends_scrolled (trace w') = true.
Proof.
  intros S H. destruct S; cbn; auto;
    apply appends_scrolled_app; auto.
  destruct caught; reflexivity.
Qed.

(** C10: both operations that append to the list scroll it to its end.
    renderMessage (for either role, when it resumes after the renderer) and
    renderLoadingIndicator each append their element and then assign the
    list's scroll height to [scrollTop], which leaves the list at its
    largest scroll offset; and in every run of the page each [appendChild]
    in the trace is directly followed by an assignment to [scrollTop]. *)
Theorem C10_every_append_scrolls :
  (forall role text w,
     exists messageEl w1,
       renderMessage_begin role text w
         = (Normal (messageEl, marked_parse text), w1) /\
       is_role role messageEl = true /\
       children w1 = children w /\ trace w1 = trace w /\
       forall w2,
       exists w3,
         renderMessage_resume messageEl (marked_parse text) w2
           = (Normal (set_innerHTML messageEl (marked_parse text)), w3) /\
         children w3
           = children w2 ++ [set_innerHTML messageEl (marked_parse text)] /\
         at_bottom w3 /\
         trace w3
           = trace w2 ++
             [E_append (set_innerHTML messageEl (marked_parse text));
              E_scrollTop (Z.of_N (scrollHeight (children w3)))]) /\
  (forall w,
     exists loadingEl w1,
       renderLoadingIndicator w = (Normal loadingEl, w1) /\
       is_loading loadingEl = true /\
       children w1 = children w ++ [loadingEl] /\
       at_bottom w1 /\
       trace w1
         = trace w ++
           [E_append loadingEl;
            E_scrollTop (Z.of_N (scrollHeight (children w1)))]) /\
  (forall API_KEY evs,
     appends_scrolled (trace (run evs (boot API_KEY))) = true).
Proof.
  split; [|split].
  - intros role text w. eexists. eexists.
    split; [reflexivity|]. split; [destruct role; reflexivity|].
    split; [reflexivity|]. split; [reflexivity|].
    intros w2. eexists. split; [reflexivity|].
    unfold at_bottom. cbn. rewrite max_scrollTop_clamp, <- app_assoc. auto.
  - intros w. eexists. eexists. split; [cbn; reflexivity|].
    split; [reflexivity|].
    unfold at_bottom. cbn. rewrite max_scrollTop_clamp, <- app_assoc. auto.
  - intros API_KEY evs.
    induction evs as [|ev evs IH] using rev_ind.
    + destruct (absent_or_present API_KEY) as [Ha|[k [-> Hk]]].
      * rewrite run_nil, (boot_absent _ Ha). reflexivity.
      * rewrite run_nil, (boot_present _ Hk). reflexivity.
    + rewrite run_snoc.
      eapply step_appends_scrolled; [|exact IH].
      apply dispatch_step, consistent_reachable.
Qed.

(** *** User submissions *)

(** C3: when the trimmed input is not empty, a submit event clears the input
    field at once; the handler then appends exactly one user-role bubble,
    holding the rendering of the trimmed text, and only after that appends
    the loading indicator and hands the trimmed text to the chat session:
    in the trace the assignment to the field and the user bubble both come
    before the one request, and no request is sent before the bubble is in
    the list. *)
Theorem C3_user_bubble_precedes_request (w : World) (session : Chat) :
  listeners w = [submit_listener] ->
  chat w = Some session ->
  let userInput := JsString.trim (value w) in
  userInput <> [] ->
  let i := List.length (tasks w) in
  let w1 := dispatch SubmitForm w in
  let w2 := dispatch (Resolve i) w1 in
  let w3 := dispatch (Resolve i) w2 in
  let messageEl := user_bubble (next_id w) userInput in
  let loadingEl := loading_bubble (S (next_id w)) in
  (value w1 = [] /\ children w1 = children w /\
   trace w1 = trace w ++ [E_preventDefault; E_setValue []]) /\
  (is_role user messageEl = true /\
   innerHTML messageEl = marked_parse userInput /\
   children w2 = children w ++ [messageEl] /\
   sends (trace w2) = sends (trace w)) /\
  exists a b d,
    d = [E_preventDefault; E_setValue []; E_append messageEl; E_scrollTop a;
         E_append loadingEl; E_scrollTop b; E_send userInput] /\
    trace w3 = trace w ++ d /\
    appended (is_role user) d = [messageEl] /\
    sends d = [userInput] /\
    value w3 = [].
Proof.
  intros Hl Hc userInput Hne i w1 w2 w3 messageEl loadingEl.
  subst w1 w2 w3 messageEl loadingEl i.
  destruct (JsString.trim (value w)) as [|c u] eqn:Ht; [now elim Hne|].
  subst userInput. clear Hne.
  pose proof (submission_sent w c u session Hl Hc Ht) as H3.
  pose proof (submission_rendered w c u Hl Ht) as H2.
  unfold run in H2, H3. cbn [fold_left] in H2, H3.
  rewrite H3, H2, (submit_accepted w c u Hl Ht). cbn.
  split; [auto|]. split.
  - repeat split; try reflexivity.
    rewrite sends_app. cbn. now rewrite app_nil_r.
  - do 3 eexists. split; [reflexivity|]. cbn. auto.
Qed.


(** *** The indicator of a pending call *)

Lemma detach_absent (id : nat) (l : list Element) :
  ~ In id (map el_id l) -> detach id l = l.
Proof.
  induction l as [|a l IH]; simpl; intros H; [reflexivity|].
  destruct (Nat.eqb_spec (el_id a) id) as [E|E]; simpl.
  - tauto.
  - rewrite IH; tauto.
Qed.

Lemma detach_unique (e : Element) (l1 l2 : list Element) :
  NoDup (map el_id (l1 ++ e :: l2)) ->
  detach (el_id e) (l1 ++ e :: l2) = l1 ++ l2 /\
  ~ In (el_id e) (map el_id (l1 ++ l2)).
Proof.
  intros Hn. rewrite map_app in Hn. simpl in Hn.
  pose proof (NoDup_remove_2 _ _ _ Hn) as Hnot.
  rewrite <- map_app in Hnot. split; [|exact Hnot].
  rewrite map_app, in_app_iff in Hnot.
  unfold detach. rewrite filter_app. simpl. rewrite Nat.eqb_refl. simpl.
  fold (detach (el_id e) l1). fold (detach (el_id e) l2).
  rewrite !detach_absent; tauto.
Qed.

(** In a well-formed page the indicator of a pending call is in the list,
    once, and removing it leaves every other element in place. *)
Lemma pending_indicator_shown (w : World) (i : nat)
  (loadingIndicator : Element) (site : Site) :
  consistent w ->
  nth_error (tasks w) i = Some (K_send loadingIndicator site) ->
  is_loading loadingIndicator = true /\
  el_id loadingIndicator < next_id w /\
  exists before after,
    children w = before ++ loadingIndicator :: after /\
    detach (el_id loadingIndicator) (children w) = before ++ after /\
    ~ In (el_id loadingIndicator) (map el_id (before ++ after)).
Proof.
  intros C Hk.
  destruct (pending_in w C _ _ _ Hk eq_refl) as [Hin Hload].
  split; [exact Hload|]. split; [now apply (ids_fresh w C)|].
  destruct (in_split _ _ Hin) as [before [after Hs]].
  exists before, after. split; [exact Hs|].
  pose proof (ids_nodup w C) as Hn. rewrite Hs in *.
  now apply detach_unique.
Qed.

(** C6: when the remote call of a user submission fails, the indicator of
    that call is removed from the list and stays absent, one model-role
    bubble is appended whose Markdown source is the fixed notice followed
    by the error's string conversion between two runs of three backquotes,
    and the error value itself is then passed to [console.error]. *)
Theorem C6_failure_reported_and_logged (API_KEY : option jsstring)
  (evs : list Event) (i : nat) (loadingIndicator : Element)
  (error : JsThrown) :
  let w := run evs (boot API_KEY) in
  nth_error (tasks w) i = Some (K_send loadingIndicator InSubmitHandler) ->
  let w' := run [Settle i (Fault error); Resolve i; Resolve i] w in
  exists messageEl v,
    is_role model messageEl = true /\
    is_loading messageEl = false /\
    innerHTML messageEl
      = marked_parse
          (lit "**Error:** Something went wrong. Please try again. " ++
           [JsString.LF; JsString.LF] ++
           lit "```" ++ toString error ++ lit "```") /\
    In loadingIndicator (children w) /\
    In messageEl (children w') /\
    (forall e, In e (children w') -> el_id e <> el_id loadingIndicator) /\
    trace w'
      = trace w ++ [E_remove loadingIndicator; E_append messageEl;
                    E_scrollTop v; E_console_error error] /\
    nth_error (tasks w') i = Some K_done.
Proof.
  intros w Hk w'. subst w'.
  pose proof (consistent_reachable API_KEY evs) as C. fold w in C.
  destruct (pending_indicator_shown w i _ _ C Hk)
    as (Hload & Hlt & before & after & Hch & Hdet & Hnot).
  rewrite (exchange_finished w i _ _ (Fault error) Hk). cbn.
  do 2 eexists. repeat split; try reflexivity.
  - rewrite Hch. apply in_app_iff. right. now left.
  - apply in_app_iff. right. now left.
  - intros e He. apply in_app_iff in He. destruct He as [He|[<-|[]]].
    + apply in_detach in He. tauto.
    + cbn. lia.
  - eapply nth_error_update_nth_here. exact Hk.
Qed.

Lemma logged_quiet (caught : option JsThrown) :
  appended is_loading (logged caught) = [] /\ removed (logged caught) = [] /\
  sends (logged caught) = [].
Proof. destruct caught; cbn; auto. Qed.

Lemma not_in_detach (e : Element) (l : list Element) :
  ~ In e (detach (el_id e) l).
Proof. intros H. apply in_detach in H. tauto. Qed.



(** *** Startup with a credential *)

Lemma greeting_finished (k : jsstring) (o : Outcome) :
  JsString.truthy k = true ->
  run [Settle 0 o; Resolve 0; Resolve 0] (boot (Some k)) =
  mkWorld [model_bubble 1 (settled_text InInitializeChat o)]
    (max_scrollTop [model_bubble 1 (settled_text InInitializeChat o)]) []
    (Some (mkChat k "gemini-2.5-flash" systemInstruction))
    [submit_listener] 2 [K_done]
    ([E_append (loading_bubble 0);
      E_scrollTop (Z.of_N (scrollHeight [loading_bubble 0]));
      E_send (lit "Hello");
      E_remove (loading_bubble 0);
      E_append (model_bubble 1 (settled_text InInitializeChat o));
      E_scrollTop (Z.of_N (scrollHeight
        [model_bubble 1 (settled_text InInitializeChat o)]))]
     ++ logged (caught_error o)).
Proof.
  intros Hk. rewrite (boot_present k Hk).
  erewrite (exchange_finished _ 0 (loading_bubble 0) InInitializeChat o)
    by reflexivity.
  reflexivity.
Qed.

(** C7: with a credential, module evaluation sends exactly one message,
    ["Hello"], before any event is handled, and in every run of the page it
    stays the first message sent; when that call settles, the list holds
    exactly one element, the model-role bubble with the reply or with the
    initialisation error notice, and nothing more has been sent.  After a
    failed first exchange the listener is still registered: typing a
    non-blank text and submitting it shows the user bubble and sends the
    trimmed text. *)
Theorem C7_startup_greeting (k : jsstring) :
  JsString.truthy k = true ->
  let w0 := boot (Some k) in
  (sends (trace w0) = [lit "Hello"] /\
   appended (is_role user) (trace w0) = [] /\
   submit_handler_registered w0) /\
  (forall evs,
     exists rest, sends (trace (run evs w0)) = lit "Hello" :: rest) /\
  (forall o,
     let w1 := run [Settle 0 o; Resolve 0; Resolve 0] w0 in
     let replyEl := model_bubble 1 (settled_text InInitializeChat o) in
     children w1 = [replyEl] /\
     is_role model replyEl = true /\
     appended (fun el => negb (is_loading el)) (trace w1) = [replyEl] /\
     sends (trace w1) = [lit "Hello"] /\
     tasks w1 = [K_done]) /\
  (forall error v c u,
     JsString.trim v = c :: u ->
     let w1 := run [Settle 0 (Fault error); Resolve 0; Resolve 0] w0 in
     let w2 := run [UserTypes v; SubmitForm; Resolve 1; Resolve 1] w1 in
     submit_handler_registered w1 /\
     children w2
       = [model_bubble 1 (catch_text InInitializeChat error);
          user_bubble 2 (c :: u); loading_bubble 3] /\
     sends (trace w2) = [lit "Hello"; c :: u] /\
     value w2 = []).
Proof.
  intros Hk w0.
  pose proof (boot_present k Hk : w0 = _) as H0.
  split; [|split; [|split]].
  - rewrite H0. cbn. unfold submit_handler_registered. cbn. auto.
  - intros evs.
    destruct (run_trace evs w0 (consistent_boot (Some k))) as [d Hd].
    rewrite Hd, sends_app, H0. cbn. eauto.
  - intros o w1 replyEl.
    pose proof (greeting_finished k o Hk : w1 = _) as H1.
    rewrite H1. cbn [children trace tasks].
    rewrite appended_app, sends_app.
    destruct (logged_quiet (caught_error o)) as (_ & _ & Ls). rewrite Ls.
    repeat split; try reflexivity.
    destruct o; reflexivity.
  - intros error v c u Ht w1 w2.
    pose proof (greeting_finished k (Fault error) Hk : w1 = _) as H1.
    assert (H2 : w2 = run [SubmitForm; Resolve 1; Resolve 1] (type_value v w1))
      by reflexivity.
    rewrite H1 in H2.
    match type of H2 with
    | _ = run _ ?W =>
        pose proof (submission_sent W c u _ eq_refl eq_refl Ht
                    : run [SubmitForm; Resolve 1; Resolve 1] W = _) as H3
    end.
    rewrite H3 in H2. clear H3. clearbody w2. subst w2.
    split; [rewrite H1; unfold submit_handler_registered; cbn; auto|].
    cbn. repeat split.
Qed.

(** *** The failure path leaves the conversation alone *)

Lemma detach_last_of_fresh (w : World) (a b : Element) :
  consistent w ->
  el_id a = next_id w -> el_id b = S (next_id w) ->
  detach (S (next_id w)) (children w ++ [a; b]) = children w ++ [a].
Proof.
  intros C Ha Hb. unfold detach. rewrite filter_app. cbn.
  rewrite Ha, Hb, Nat.eqb_refl.
  replace (next_id w =? S (next_id w)) with false
    by (symmetry; apply Nat.eqb_neq; lia).
  cbn. f_equal. apply detach_absent.
  intros Hi. apply (in_ids_fresh w _ C) in Hi. lia.
Qed.

(** C8: when a remote call fails, for the submit handler as for
    initializeChat, the list changes in two ways only: the indicator of
    that call is taken out, every other element keeping its place, and one
    error bubble is added at the end; logging the error changes nothing in
    the list.  In particular, after a user submission whose call fails, the
    list is what it was before the submission, followed by the user's own
    bubble and the error bubble. *)
Theorem C8_failure_preserves_messages :
  (forall API_KEY evs i ind site error,
     let w := run evs (boot API_KEY) in
     nth_error (tasks w) i = Some (K_send ind site) ->
     let w1 := dispatch (Settle i (Fault error)) w in
     let w2 := dispatch (Resolve i) w1 in
     let w3 := dispatch (Resolve i) w2 in
     let errorEl := model_bubble (next_id w) (catch_text site error) in
     exists before after,
       children w = before ++ ind :: after /\
       is_loading ind = true /\
       children w1 = before ++ after /\
       children w2 = before ++ after ++ [errorEl] /\
       children w3 = children w2 /\
       ~ In errorEl (children w) /\
       forall e, In e (children w) -> e <> ind -> In e (children w3)) /\
  (forall (k : jsstring) evs error c u,
     JsString.truthy k = true ->
     let w := run evs (boot (Some k)) in
     JsString.trim (value w) = c :: u ->
     let i := List.length (tasks w) in
     let w' := run [SubmitForm; Resolve i; Resolve i;
                    Settle i (Fault error); Resolve i; Resolve i] w in
     children w'
       = children w ++
         [user_bubble (next_id w) (c :: u);
          model_bubble (S (S (next_id w)))
            (catch_text InSubmitHandler error)]).
Proof.
  split.
  - intros API_KEY evs i ind site error w Hk w1 w2 w3 errorEl.
    pose proof (consistent_reachable API_KEY evs : consistent w) as C.
    destruct (pending_indicator_shown w i _ _ C Hk)
      as (Hload & Hlt & before & after & Hch & Hdet & Hnot).
    pose proof (settle_outcome w i _ _ (Fault error) Hk : w1 = _) as H1.
    pose proof (exchange_settled w i _ _ (Fault error) Hk : w2 = _) as H2.
    pose proof (exchange_finished w i _ _ (Fault error) Hk : w3 = _) as H3.
    clearbody w1 w2 w3. subst w1 w2 w3. cbn.
    exists before, after. rewrite Hdet, <- app_assoc.
    split; [exact Hch|]. split; [exact Hload|].
    do 3 (split; [reflexivity|]).
    split.
    + intros Hin. apply (ids_fresh w C) in Hin. cbn in Hin. lia.
    + intros e He Hne. rewrite Hch in He.
      rewrite app_assoc. apply in_app_iff. left.
      apply in_app_iff in He. apply in_app_iff.
      destruct He as [He|[He|He]]; auto. now elim Hne.
  - intros k evs error c u Hk w Ht i w'.
    pose proof (consistent_reachable (Some k) evs : consistent w) as C.
    destruct (present_static k evs Hk) as [Hl Hc]. fold w in Hl, Hc.
    assert (H : w' = run [Settle i (Fault error); Resolve i; Resolve i]
                       (run [SubmitForm; Resolve i; Resolve i] w))
      by reflexivity.
    pose proof (submission_sent w c u _ Hl Hc Ht
                : run [SubmitForm; Resolve i; Resolve i] w = _) as H3.
    rewrite H3 in H. clear H3.
    erewrite exchange_finished in H by (cbn; apply nth_error_snoc_here).
    rewrite H. cbn [children el_id loading_bubble].
    rewrite (detach_last_of_fresh w (user_bubble (next_id w) (c :: u))
               (loading_bubble (S (next_id w))) C eq_refl eq_refl).
    rewrite <- app_assoc. reflexivity.
Qed.

(** *** Where user bubbles come from *)

Lemma from_submission_later (API_KEY : option jsstring) (evs : list Event)
  (ev : Event) (html : jsstring) :
  from_submission API_KEY evs html ->
  from_submission API_KEY (evs ++ [ev]) html.
Proof.
  intros (before & after & -> & Hne & Hh).
  exists before, (after ++ [ev]). rewrite <- app_assoc. auto.
Qed.

Lemma user_bubbles_submitted (API_KEY : option jsstring) (evs : list Event) :
  let w := run evs (boot API_KEY) in
  (forall e, In e (children w) -> is_role user e = true ->
     from_submission API_KEY evs (innerHTML e)) /\
  (forall i k, nth_error (tasks w) i = Some k -> task_origin API_KEY evs k).
Proof.
  induction evs as [|ev evs IH] using rev_ind.
  - cbn zeta. rewrite run_nil.
    destruct (absent_or_present API_KEY) as [Ha|[k [-> Hk]]].
    + rewrite (boot_absent _ Ha). cbn. split.
      * intros e [<-|[]] H. discriminate H.
      * intros [|i] ? H; discriminate H.
    + rewrite (boot_present _ Hk). cbn. split.
      * intros e [<-|[]] H. discriminate H.
      * intros [|[|i]] ? H; try discriminate H. injection H as <-. exact I.
  - cbn zeta in *. rewrite run_snoc.
    pose proof (consistent_reachable API_KEY evs) as C.
    pose proof (dispatch_step ev _ C) as S.
    destruct IH as [IHc IHt].
    assert (Ht' : forall i k, nth_error (tasks (run evs (boot API_KEY))) i = Some k ->
                    task_origin API_KEY (evs ++ [ev]) k).
    { intros i k H. specialize (IHt i k H). destruct k; cbn in *; auto.
      now apply from_submission_later. }
    assert (Hc' : forall e, In e (children (run evs (boot API_KEY))) ->
                    is_role user e = true ->
                    from_submission API_KEY (evs ++ [ev]) (innerHTML e)).
    { intros e He Hr. now apply from_submission_later, IHc. }
    clear IHc.
    remember (dispatch ev (run evs (boot API_KEY))) as w' eqn:Ew'. clear Ew'.
    remember (run evs (boot API_KEY)) as w eqn:Ew.
    destruct S; cbn.
    + auto.
    + auto.
    + auto.
    + split; [exact Hc'|].
      intros i k Hn. apply nth_error_snoc_inv in Hn.
      destruct Hn as [Hn|[_ ->]]; [now apply Ht' with i|].
      cbn. exists evs, []. rewrite <- Ew, H0.
      repeat split. discriminate.
    + split.
      * intros e He Hr. apply in_app_iff in He.
        destruct He as [He|[<-|[]]]; [now apply Hc'|].
        exact (Ht' _ _ H).
      * intros j k Hn. apply nth_error_update_nth_inv in Hn.
        destruct Hn as [[_ ->]|[_ Hn]]; [exact I | now apply Ht' with j].
    + split.
      * intros e He Hr. apply in_app_iff in He.
        destruct He as [He|[<-|[]]]; [now apply Hc'|]. discriminate Hr.
      * intros j k Hn. apply nth_error_update_nth_inv in Hn.
        destruct Hn as [[_ ->]|[_ Hn]]; [exact I | now apply Ht' with j].
    + split.
      * intros e He Hr. apply in_detach in He. apply Hc'; tauto.
      * intros j k Hn. apply nth_error_update_nth_inv in Hn.
        destruct Hn as [[_ ->]|[_ Hn]]; [reflexivity | now apply Ht' with j].
    + split.
      * intros e He Hr. apply in_app_iff in He.
        destruct He as [He|[<-|[]]]; [now apply Hc'|].
        pose proof (Ht' _ _ H) as Ho. cbn in Ho, Hr.
        unfold is_role, has_class in Ho. cbn in Ho. congruence.
      * intros j k Hn. apply nth_error_update_nth_inv in Hn.
        destruct Hn as [[_ ->]|[_ Hn]]; [exact I | now apply Ht' with j].
    + split; [exact Hc'|].
      intros j k Hn. apply nth_error_update_nth_inv in Hn.
      destruct Hn as [[_ ->]|[_ Hn]]; [exact I | now apply Ht' with j].
Qed.

Lemma in_split_event (ev : Event) (before after : list Event) :
  In ev (before ++ ev :: after).
Proof. apply in_app_iff. right. now left. Qed.

(** C9: the ["Hello"] of startup is handed to the chat session but no
    user-role bubble is made for it: after module evaluation the list holds
    no user-role element, and it holds none in any run without a submit
    event, the whole first exchange included.  In every run of the page,
    each user-role element of the list is the rendering of the trimmed,
    non-empty text that the input field held at one of the run's submit
    events. *)
Theorem C9_user_bubbles_come_from_submissions :
  (forall k : jsstring,
     JsString.truthy k = true ->
     sends (trace (boot (Some k))) = [lit "Hello"] /\
     appended (is_role user) (trace (boot (Some k))) = []) /\
  (forall API_KEY evs e,
     ~ In SubmitForm evs ->
     In e (children (run evs (boot API_KEY))) -> is_role user e = false) /\
  (forall API_KEY evs e,
     In e (children (run evs (boot API_KEY))) ->
     is_role user e = true ->
     from_submission API_KEY evs (innerHTML e)).
Proof.
  split; [|split].
  - intros k Hk. rewrite (boot_present _ Hk). cbn. auto.
  - intros API_KEY evs e Hno He.
    destruct (is_role user e) eqn:Hr; [|reflexivity].
    destruct (proj1 (user_bubbles_submitted API_KEY evs) e He Hr)
      as (before & after & -> & _).
    elim Hno. apply in_split_event.
  - intros API_KEY evs e He Hr.
    exact (proj1 (user_bubbles_submitted API_KEY evs) e He Hr).
Qed.

(** ** More about the program *)

(** *** Induction over the pages a run can reach *)

Lemma reachable_ind (API_KEY : option jsstring)
  (P : list Event -> World -> Prop) :
  P [] (boot API_KEY) ->
  (forall evs ev w w',
     w = run evs (boot API_KEY) -> consistent w -> P evs w ->
     step w ev w' -> P (evs ++ [ev]) w') ->
  forall evs, P evs (run evs (boot API_KEY)).
Proof.
  intros H0 Hs evs. induction evs as [|ev evs IH] using rev_ind.
  - exact H0.
  - rewrite run_snoc.
    apply Hs with (w := run evs (boot API_KEY)); auto.
    + apply consistent_reachable.
    + apply dispatch_step, consistent_reachable.
Qed.

(** *** trim *)

Lemma trimStart_snoc_keep (l : jsstring) (c : JsString.code_unit) :
  JsString.is_ws c = false ->
  exists l', JsString.trimStart (l ++ [c]) = l' ++ [c].
Proof.
  intros Hc. induction l as [|a l IH]; simpl.
  - rewrite Hc. now exists [].
  - destruct (JsString.is_ws a).
    + exact IH.
    + now exists (a :: l).
Qed.

Lemma last_snoc {A} (l : list A) (x d : A) : last (l ++ [x]) d = x.
Proof.
  induction l as [|a l IH]; simpl; [reflexivity|].
  destruct (l ++ [x]) eqn:E; [destruct l; discriminate | exact IH].
Qed.

(** What [trim] returns is empty or has no white space at either end. *)
Lemma trim_trimmed (s : jsstring) :
  JsString.trim s <> [] -> trimmed (JsString.trim s).
Proof.
  unfold JsString.trim, JsString.trimEnd.
  pose proof (trimStart_head s) as Hh.
  destruct (JsString.trimStart s) as [|c r] eqn:Et; [intros H; now elim H|].
  intros _. simpl rev.
  destruct (trimStart_snoc_keep (rev r) c Hh) as [l' El'].
  pose proof (trimStart_head (rev r ++ [c])) as Hh'.
  rewrite El' in *. rewrite rev_app_distr. simpl.
  split; [exact Hh|].
  destruct l' as [|a l']; simpl in *; [exact Hh|].
  destruct (rev l' ++ [a]) eqn:E; [destruct (rev l'); discriminate|].
  rewrite <- E. rewrite last_snoc. exact Hh'.
Qed.

Lemma trimmed_nonempty (m : jsstring) : trimmed m -> m <> [].
Proof. destruct m; simpl; [tauto | discriminate]. Qed.

(** *** The submit handler accepts or aborts *)

(** X1: with the listener registered, a submit event starts the pipeline
    exactly when the input field holds something other than white space;
    it then starts one task, for the trimmed text, and clears the field;
    otherwise the task table and the field stay as they are. *)
Theorem X1_submit_accepts_iff_not_blank (w : World) :
  listeners w = [submit_listener] ->
  let w' := dispatch SubmitForm w in
  (forallb JsString.is_ws (value w) = true ->
     tasks w' = tasks w /\ value w' = value w) /\
  (forallb JsString.is_ws (value w) = false ->
     exists messageEl,
       tasks w' = tasks w ++
         [K_user_parse messageEl
            (marked_parse (JsString.trim (value w)))
            (JsString.trim (value w))] /\
       is_role user messageEl = true /\
       value w' = [] /\
       trimmed (JsString.trim (value w))).
Proof.
  intros Hl w'. subst w'. split.
  - intros Hws. apply trim_nil_iff in Hws.
    rewrite (submit_blank w Hl Hws). auto.
  - intros Hws.
    destruct (JsString.trim (value w)) as [|c u] eqn:Ht.
    + apply trim_nil_iff in Ht. congruence.
    + assert (Htr : trimmed (c :: u)).
      { rewrite <- Ht. apply trim_trimmed. rewrite Ht. discriminate. }
      rewrite (submit_accepted w c u Hl Ht).
      eexists. split; [reflexivity|]. split; [reflexivity|].
      split; [reflexivity | exact Htr].
Qed.

(** *** What is sent *)

Lemma sent_trimmed_invariant (API_KEY : option jsstring) (evs : list Event) :
  let w := run evs (boot API_KEY) in
  Forall trimmed (sends (trace w)) /\
  (forall i k u, nth_error (tasks w) i = Some k -> outgoing k = Some u ->
     trimmed u).
Proof.
  cbv zeta. revert evs.
  apply (reachable_ind API_KEY
           (fun _ w =>
              Forall trimmed (sends (trace w)) /\
              (forall i k u, nth_error (tasks w) i = Some k ->
                 outgoing k = Some u -> trimmed u))).
  - destruct (absent_or_present API_KEY) as [Ha|[k [-> Hk]]].
    + rewrite (boot_absent _ Ha). cbn. split; [constructor|].
      intros [|i] ? ? H; discriminate H.
    + rewrite (boot_present _ Hk). cbn. split.
      * repeat constructor; vm_compute; reflexivity.
      * intros [|[|i]] ? ? H Ho; try discriminate H.
        injection H as <-. discriminate Ho.
  - intros evs ev w w' _ C [IHs IHt] S.
    destruct S; cbn; try rewrite sends_app; cbn; rewrite ?app_nil_r.
    + auto.
    + auto.
    + auto.
    + split; [exact IHs|].
      intros j k0 u0 Hn Ho. apply nth_error_snoc_inv in Hn.
      destruct Hn as [Hn|[_ ->]]; [eauto|].
      injection Ho as <-.
      rewrite <- H0. apply trim_trimmed. rewrite H0. discriminate.
    + split; [exact IHs|].
      intros j k0 u0 Hn Ho. inv_nth; eauto.
    + split.
      * apply Forall_app. split; [exact IHs|].
        constructor; [|constructor]. eapply IHt; [exact H | reflexivity].
      * intros j k0 u0 Hn Ho. inv_nth. eauto.
    + split; [exact IHs|].
      intros j k0 u0 Hn Ho. inv_nth. eauto.
    + split; [exact IHs|].
      intros j k0 u0 Hn Ho. inv_nth. eauto.
    + split.
      * destruct caught; cbn; rewrite ?app_nil_r; exact IHs.
      * intros j k0 u0 Hn Ho. inv_nth. eauto.
Qed.

(** X2: in every run of the page, each message handed to
    [chat.sendMessage] is non-empty and has no white space at its start
    or at its end. *)
Theorem X2_sent_messages_are_trimmed (API_KEY : option jsstring)
  (evs : list Event) (m : jsstring) :
  In m (sends (trace (run evs (boot API_KEY)))) ->
  m <> [] /\ trimmed m.
Proof.
  intros Hin.
  pose proof (proj1 (sent_trimmed_invariant API_KEY evs)) as H.
  rewrite Forall_forall in H. specialize (H m Hin).
  split; [now apply trimmed_nonempty | exact H].
Qed.

(** *** The input field *)

(** X3: only a submit event makes the program write to the input field.
    When a task resumes or a remote call settles, on any page, the field
    keeps what the user has typed; and in every run the program has only
    ever assigned the empty string to it. *)
Theorem X3_field_only_cleared_on_submit :
  (forall w i, value (dispatch (Resolve i) w) = value w) /\
  (forall w i o, value (dispatch (Settle i o) w) = value w) /\
  (forall API_KEY evs v,
     In v (field_writes (trace (run evs (boot API_KEY)))) -> v = []).
Proof.
  split; [|split].
  - intros w i. unfold dispatch.
    destruct (nth_error (tasks w) i) as [k|]; [|reflexivity].
    destruct k; unfold continue; cbn; try reflexivity.
    + unfold try_send. cbn. destruct (chat w); reflexivity.
    + destruct caught; reflexivity.
  - intros w i o. unfold dispatch.
    destruct (nth_error (tasks w) i) as [k|]; [|reflexivity].
    destruct k; try reflexivity. destruct o; reflexivity.
  - intros API_KEY evs. revert evs.
    apply (reachable_ind API_KEY
             (fun _ w => forall v, In v (field_writes (trace w)) -> v = [])).
    + destruct (absent_or_present API_KEY) as [Ha|[k [-> Hk]]].
      * rewrite (boot_absent _ Ha). cbn. tauto.
      * rewrite (boot_present _ Hk). cbn. tauto.
    + intros evs ev w w' _ C IH S.
      assert (Happ : forall d, (forall v, In v (field_writes d) -> v = []) ->
                forall v, In v (field_writes (trace w ++ d)) -> v = []).
      { intros d Hd v Hv.
        assert (E : forall a b, field_writes (a ++ b)
                                = field_writes a ++ field_writes b).
        { intros a b. induction a as [|x a IHa]; simpl; [reflexivity|].
          destruct x; simpl; rewrite ?IHa; reflexivity. }
        rewrite E in Hv. apply in_app_iff in Hv. destruct Hv; auto. }
      destruct S; cbn; auto; apply Happ; cbn; try tauto.
      * intros v [<-|[]]. reflexivity.
      * destruct caught; cbn; tauto.
Qed.

(** *** The session *)

(** X4: the credential check lets every non-empty string through, white
    space included; the session is then created with that very key, the
    model [gemini-2.5-flash] and the tutoring instruction, and in every run
    it stays that session, with the submit listener registered once. *)
Theorem X4_session_fixed_for_the_run (k : jsstring) (evs : list Event) :
  k <> [] ->
  let w := run evs (boot (Some k)) in
  chat w = Some (mkChat k "gemini-2.5-flash" systemInstruction) /\
  listeners w = [submit_listener].
Proof.
  intros Hk w.
  assert (Ht : JsString.truthy k = true) by (destruct k; [now elim Hk | reflexivity]).
  destruct (present_static k evs Ht) as [Hl Hc]. auto.
Qed.

(** *** Indicators and pending calls *)

Lemma nth_error_update_nth_other {A} (l : list A) (i j : nat) (x : A) :
  j <> i -> nth_error (update_nth i x l) j = nth_error l j.
Proof.
  revert i j. induction l as [|a l IH]; intros [|i] [|j] H; simpl; auto.
  now elim H.
Qed.

Lemma nth_error_snoc_old {A} (l : list A) (i : nat) (x y : A) :
  nth_error l i = Some y -> nth_error (l ++ [x]) i = Some y.
Proof.
  intros H. rewrite nth_error_app1; [exact H|].
  apply nth_error_Some. congruence.
Qed.

Lemma indicator_invariant (API_KEY : option jsstring) (evs : list Event) :
  let w := run evs (boot API_KEY) in
  (forall e, In e (children w) -> is_loading e = true ->
     exists i site, nth_error (tasks w) i = Some (K_send e site)) /\
  (forall i k e, nth_error (tasks w) i = Some k -> held k = Some e ->
     is_loading e = false).
Proof.
  cbv zeta. revert evs.
  apply (reachable_ind API_KEY
           (fun _ w =>
              (forall e, In e (children w) -> is_loading e = true ->
                 exists i site, nth_error (tasks w) i = Some (K_send e site)) /\
              (forall i k e, nth_error (tasks w) i = Some k ->
                 held k = Some e -> is_loading e = false))).
  - destruct (absent_or_present API_KEY) as [Ha|[k [-> Hk]]].
    + rewrite (boot_absent _ Ha). cbn. split.
      * intros e [<-|[]] H. discriminate H.
      * intros [|i] ? ? H; discriminate H.
    + rewrite (boot_present _ Hk). cbn. split.
      * intros e [<-|[]] _. now exists 0, InInitializeChat.
      * intros [|[|i]] ? ? H Hh; try discriminate H.
        injection H as <-. discriminate Hh.
  - intros evs ev w w' _ C [IHc IHh] S.
    assert (Hold : forall i j k x e site,
              nth_error (tasks w) i = Some k -> pending k = None ->
              nth_error (tasks w) j = Some (K_send e site) ->
              nth_error (update_nth i x (tasks w)) j = Some (K_send e site)).
    { intros i j k x e site Hi Hp Hj.
      rewrite nth_error_update_nth_other; [exact Hj|].
      intros ->. rewrite Hi in Hj. injection Hj as ->. discriminate Hp. }
    destruct S; cbn.
    + auto.
    + auto.
    + auto.
    + split.
      * intros e He Hl. destruct (IHc e He Hl) as (j & site & Hj).
        exists j, site. now apply nth_error_snoc_old.
      * intros j k0 e Hn Hh. inv_nth; eauto.
    + split.
      * intros e He Hl. apply in_app_iff in He.
        destruct He as [He|[<-|[]]].
        -- destruct (IHc e He Hl) as (j & site & Hj).
           exists j, site. eapply Hold; eauto; reflexivity.
        -- pose proof (IHh _ _ _ H eq_refl) as Hn.
           change (is_loading messageEl = true) in Hl. congruence.
      * intros j k0 e Hn Hh. inv_nth. eauto.
    + split.
      * intros e He Hl. apply in_app_iff in He.
        destruct He as [He|[<-|[]]].
        -- destruct (IHc e He Hl) as (j & site & Hj).
           exists j, site. eapply Hold; eauto; reflexivity.
        -- exists i, InSubmitHandler.
           eapply nth_error_update_nth_here. exact H.
      * intros j k0 e Hn Hh. inv_nth. eauto.
    + split.
      * intros e He Hl. apply in_detach in He. destruct He as [He Hne].
        destruct (IHc e He Hl) as (j & site' & Hj).
        exists j, site'.
        rewrite nth_error_update_nth_other; [exact Hj|].
        intros ->. rewrite H in Hj. injection Hj as <- _. now elim Hne.
      * intros j k0 e Hn Hh. inv_nth; eauto.
    + split.
      * intros e He Hl. apply in_app_iff in He.
        destruct He as [He|[<-|[]]].
        -- destruct (IHc e He Hl) as (j & site & Hj).
           exists j, site. eapply Hold; eauto; reflexivity.
        -- pose proof (IHh _ _ _ H eq_refl) as Hn.
           change (is_loading messageEl = true) in Hl. congruence.
      * intros j k0 e Hn Hh. inv_nth. eauto.
    + split.
      * intros e He Hl.
        destruct (IHc e He Hl) as (j & site & Hj).
        exists j, site. eapply Hold; eauto; reflexivity.
      * intros j k0 e Hn Hh. inv_nth. eauto.
Qed.

Lemma in_indicators (e : Element) (l : list Element) :
  In e (indicators l) <-> In e l /\ is_loading e = true.
Proof. unfold indicators. apply filter_In. Qed.

(** X5: in every run of the page, the loading indicators in the list are
    exactly the indicators of the remote calls in flight: an element
    reading "Thinking..." is shown if and only if some task is waiting for
    its call with that element as its indicator.  So when no call is
    pending the list holds no indicator. *)
Theorem X5_indicator_shown_iff_call_pending (API_KEY : option jsstring)
  (evs : list Event) :
  let w := run evs (boot API_KEY) in
  (forall e,
     In e (indicators (children w)) <->
     exists i site, nth_error (tasks w) i = Some (K_send e site)) /\
  (no_call_pending w -> indicators (children w) = []).
Proof.
  intros w.
  pose proof (consistent_reachable API_KEY evs : consistent w) as C.
  pose proof (proj1 (indicator_invariant API_KEY evs)
              : forall e, In e (children w) -> is_loading e = true -> _) as Hi.
  assert (Hiff : forall e,
            In e (indicators (children w)) <->
            exists i site, nth_error (tasks w) i = Some (K_send e site)).
  { intros e. rewrite in_indicators. split.
    - intros [He Hl]. now apply Hi.
    - intros (i & site & Hk). exact (pending_in w C _ _ _ Hk eq_refl). }
  split; [exact Hiff|].
  intros Hq. destruct (indicators (children w)) as [|e l] eqn:E; [reflexivity|].
  destruct (proj1 (Hiff e) (or_introl eq_refl)) as (i & site & Hk).
  specialize (Hq _ _ Hk). discriminate Hq.
Qed.

(** *** The conversation only grows *)

Lemma messages_app (l l' : list Element) :
  messages (l ++ l') = messages l ++ messages l'.
Proof. apply filter_app. Qed.

Lemma step_messages (w w' : World) (ev : Event) :
  consistent w -> step w ev w' ->
  exists added, messages (children w') = messages (children w) ++ added.
Proof.
  intros C S. destruct S; cbn; rewrite ?messages_app; eauto.
  - exists []. now rewrite app_nil_r.
  - exists []. now rewrite app_nil_r.
  - exists []. now rewrite app_nil_r.
  - exists []. now rewrite app_nil_r.
  - destruct (pending_indicator_shown w i _ _ C H)
      as (Hload & _ & before & after & Hch & Hdet & _).
    exists []. rewrite Hdet, Hch, app_nil_r, !messages_app. f_equal.
    unfold messages at 2. simpl. rewrite Hload. reflexivity.
  - exists []. now rewrite app_nil_r.
Qed.

Lemma run_messages (evs : list Event) (w : World) :
  consistent w ->
  exists added,
    messages (children (run evs w)) = messages (children w) ++ added.
Proof.
  revert w. induction evs as [|ev evs IH]; intros w C.
  - exists []. now rewrite app_nil_r.
  - rewrite run_cons.
    pose proof (dispatch_step ev w C) as S.
    destruct (step_messages _ _ _ C S) as [a Ha].
    destruct (IH _ (step_consistent _ _ _ C S)) as [a' Ha'].
    exists (a ++ a'). rewrite Ha', Ha, app_assoc. reflexivity.
Qed.

(** X6: the conversation is append-only.  In every run, whatever happens
    next, the elements of the list other than loading indicators are still
    there afterwards, unchanged and in the same order, with any new ones
    after them: no message is ever removed, replaced or reordered. *)
Theorem X6_conversation_is_append_only (API_KEY : option jsstring)
  (evs later : list Event) :
  exists added,
    messages (children (run (evs ++ later) (boot API_KEY)))
    = messages (children (run evs (boot API_KEY))) ++ added.
Proof.
  rewrite run_app. apply run_messages, consistent_reachable.
Qed.

(** *** Overlapping calls *)

(** X7: calls in flight do not disturb one another.  In every run, when two
    tasks wait for their remote calls, their indicators are two different
    elements; settling one call, with a reply or a failure, and running
    that exchange to its end removes the first indicator and leaves the
    other task waiting, with its own indicator still in the list. *)
Theorem X7_overlapping_calls_are_independent (API_KEY : option jsstring)
  (evs : list Event) (i j : nat) (a b : Element) (s t : Site) (o : Outcome) :
  let w := run evs (boot API_KEY) in
  i <> j ->
  nth_error (tasks w) i = Some (K_send a s) ->
  nth_error (tasks w) j = Some (K_send b t) ->
  let w1 := dispatch (Settle i o) w in
  let w3 := run [Settle i o; Resolve i; Resolve i] w in
  el_id a <> el_id b /\
  (~ In a (children w1) /\ In b (children w1) /\
   nth_error (tasks w1) j = Some (K_send b t)) /\
  (~ In a (children w3) /\ In b (children w3) /\
   nth_error (tasks w3) j = Some (K_send b t) /\
   nth_error (tasks w3) i = Some K_done).
Proof.
  intros w Hij Hi Hj w1 w3.
  pose proof (consistent_reachable API_KEY evs : consistent w) as C.
  assert (Hab : el_id a <> el_id b).
  { intros E. apply Hij.
    exact (pending_inj w C i j _ _ a b Hi Hj eq_refl eq_refl E). }
  destruct (pending_in w C _ _ _ Hj eq_refl) as [Hb _].
  destruct (pending_in w C _ _ _ Hi eq_refl) as [Ha Hla].
  pose proof (ids_fresh w C _ Ha) as Hfa.
  pose proof (settle_outcome w i _ _ o Hi : w1 = _) as H1.
  pose proof (exchange_finished w i _ _ o Hi : w3 = _) as H3.
  clearbody w1 w3. subst w1 w3. cbn.
  split; [exact Hab|]. split; [|split; [|split; [|split]]].
  - split; [apply not_in_detach|]. split.
    + apply in_detach. split; [exact Hb | congruence].
    + rewrite nth_error_update_nth_other; [exact Hj | congruence].
  - intros H. apply in_app_iff in H. destruct H as [H|[H|[]]].
    + revert H. apply not_in_detach.
    + rewrite <- H in Hfa. cbn in Hfa. lia.
  - apply in_app_iff. left. apply in_detach. split; [exact Hb | congruence].
  - rewrite nth_error_update_nth_other; [exact Hj | congruence].
  - eapply nth_error_update_nth_here. exact Hi.
Qed.

(** *** The shape of the list's children *)

(** Classes of an element a task holds: a bubble of one role, never an
    indicator. *)
Lemma shape_invariant (API_KEY : option jsstring) (evs : list Event) :
  let w := run evs (boot API_KEY) in
  (forall e, In e (children w) -> bubble_classes e) /\
  (forall i k e, nth_error (tasks w) i = Some k -> held k = Some e ->
     localName e = "div"%string /\
     (classList e = ["message"; "user-message"]%string \/
      classList e = ["message"; "model-message"]%string)).
Proof.
  cbv zeta. revert evs.
  apply (reachable_ind API_KEY
           (fun _ w =>
              (forall e, In e (children w) -> bubble_classes e) /\
              (forall i k e, nth_error (tasks w) i = Some k ->
                 held k = Some e ->
                 localName e = "div"%string /\
                 (classList e = ["message"; "user-message"]%string \/
                  classList e = ["message"; "model-message"]%string)))).
  - destruct (absent_or_present API_KEY) as [Ha|[k [-> Hk]]].
    + rewrite (boot_absent _ Ha). cbn. split.
      * intros e [<-|[]]. unfold bubble_classes. cbn. auto.
      * intros [|i] ? ? H; discriminate H.
    + rewrite (boot_present _ Hk). cbn. split.
      * intros e [<-|[]]. unfold bubble_classes. cbn. auto.
      * intros [|[|i]] ? ? H Hh; try discriminate H.
        injection H as <-. discriminate Hh.
  - intros evs ev w w' _ C [IHc IHh] S.
    assert (Hins : forall i k el html,
              nth_error (tasks w) i = Some k -> held k = Some el ->
              forall e, In e (children w ++ [set_innerHTML el html]) ->
                bubble_classes e).
    { intros i k el html Hk Hh e He. apply in_app_iff in He.
      destruct He as [He|[<-|[]]]; [now apply IHc|].
      destruct (IHh _ _ _ Hk Hh) as [Hd Hcl].
      unfold bubble_classes. cbn. tauto. }
    destruct S; cbn.
    + auto.
    + auto.
    + auto.
    + split; [exact IHc|].
      intros j k0 e Hn Hh. inv_nth; eauto.
    + split; [now apply (Hins _ _ _ _ H eq_refl)|].
      intros j k0 e Hn Hh. inv_nth. eauto.
    + split.
      * intros e He. apply in_app_iff in He.
        destruct He as [He|[<-|[]]]; [now apply IHc|].
        unfold bubble_classes. cbn. auto.
      * intros j k0 e Hn Hh. inv_nth. eauto.
    + split.
      * intros e He. apply in_detach in He. apply IHc. tauto.
      * intros j k0 e Hn Hh. inv_nth; eauto.
    + split; [now apply (Hins _ _ _ _ H eq_refl)|].
      intros j k0 e Hn Hh. inv_nth. eauto.
    + split; [exact IHc|].
      intros j k0 e Hn Hh. inv_nth. eauto.
Qed.

Lemma bubble_classes_roles (e : Element) :
  bubble_classes e ->
  has_class "message" e = true /\
  is_role user e = negb (is_role model e) /\
  (is_loading e = true ->
     is_role model e = true /\ innerHTML e = lit "Thinking...").
Proof.
  intros [_ [H|[H|[H Hi]]]]; unfold is_role, is_loading, has_class;
    rewrite H; cbn; repeat split; auto; discriminate.
Qed.

(** X8: in every run of the page, each child of the message list is a
    [div] of class [message] with exactly one of the two role classes;
    only a model-role element can carry the class [loading], and one that
    does reads "Thinking...". *)
Theorem X8_children_are_bubbles_of_one_role (API_KEY : option jsstring)
  (evs : list Event) (e : Element) :
  In e (children (run evs (boot API_KEY))) ->
  localName e = "div"%string /\
  has_class "message" e = true /\
  is_role user e = negb (is_role model e) /\
  (is_loading e = true ->
     is_role model e = true /\ innerHTML e = lit "Thinking...").
Proof.
  intros He.
  pose proof (proj1 (shape_invariant API_KEY evs) e He) as Hb.
  split; [exact (proj1 Hb) | now apply bubble_classes_roles].
Qed.

(** *** What is sent is on screen *)

Lemma shown_step (API_KEY : option jsstring) (evs : list Event)
  (ev : Event) (w' : World) (m : jsstring) :
  let w := run evs (boot API_KEY) in
  step w ev w' -> shown w m -> shown w' m.
Proof.
  intros w S (e & He & Hr & Hi).
  pose proof (consistent_reachable API_KEY evs : consistent w) as C.
  pose proof (proj1 (shape_invariant API_KEY evs)
              : forall e, In e (children w) -> bubble_classes e) as Hsh.
  clearbody w.
  destruct S; try (exists e; cbn; repeat split; auto;
                   apply in_app_iff; now left).
  exists e. cbn. repeat split; auto.
  apply in_detach. split; [exact He|].
  intros E.
  destruct (pending_in w C _ _ _ H eq_refl) as [Hin Hload].
  assert (e = loadingIndicator).
  { pose proof (ids_nodup w C) as Hn.
    destruct (in_split _ _ Hin) as (l1 & l2 & Hs). rewrite Hs in *.
    destruct (detach_unique loadingIndicator l1 l2 Hn) as [_ Hnot].
    apply in_app_iff in He. destruct He as [He|[He|He]]; auto;
      elim Hnot; rewrite <- E; apply in_map, in_app_iff; auto. }
  subst e.
  destruct (bubble_classes_roles _ (Hsh _ Hin)) as (_ & Hx & Hm).
  destruct (Hm Hload) as [Hmodel _]. rewrite Hmodel, Hr in Hx. discriminate Hx.
Qed.

Lemma sent_shown_invariant (API_KEY : option jsstring) (evs : list Event) :
  let w := run evs (boot API_KEY) in
  ((tasks w = [] /\ listeners w = [] /\ sends (trace w) = []) \/
   exists rest, sends (trace w) = lit "Hello" :: rest /\
                Forall (shown w) rest) /\
  (forall i k, nth_error (tasks w) i = Some k ->
     match k with
     | K_user_parse el html u =>
         html = marked_parse u /\ is_role user el = true
     | K_user_rendered u => shown w u
     | _ => True
     end).
Proof.
  induction evs as [|ev evs IH] using rev_ind.
  - cbv zeta. rewrite run_nil.
    destruct (absent_or_present API_KEY) as [Ha|[k [-> Hk]]].
    + rewrite (boot_absent _ Ha). cbn. split; [auto|].
      intros [|i] ? H; discriminate H.
    + rewrite (boot_present _ Hk). cbn. split.
      * right. exists []. auto.
      * intros [|[|i]] ? H; try discriminate H. injection H as <-. exact I.
  - cbv zeta in *. rewrite run_snoc.
    pose proof (consistent_reachable API_KEY evs) as C.
    pose proof (dispatch_step ev _ C) as S.
    pose proof (fun m => shown_step API_KEY evs ev _ m S) as Hmono.
    cbv zeta in Hmono.
    destruct IH as [IHs IHt].
    assert (IHt' : forall i k,
              nth_error (tasks (run evs (boot API_KEY))) i = Some k ->
              match k with
              | K_user_parse el html u =>
                  html = marked_parse u /\ is_role user el = true
              | K_user_rendered u =>
                  shown (dispatch ev (run evs (boot API_KEY))) u
              | _ => True
              end).
    { intros i k Hk. specialize (IHt i k Hk). destruct k; auto. }
    assert (IHs' : forall d, sends d = [] ->
              (tasks (run evs (boot API_KEY)) = [] /\
               listeners (run evs (boot API_KEY)) = [] /\
               sends (trace (run evs (boot API_KEY)) ++ d) = []) \/
              exists rest,
                sends (trace (run evs (boot API_KEY)) ++ d)
                  = lit "Hello" :: rest /\
                Forall (shown (dispatch ev (run evs (boot API_KEY)))) rest).
    { intros d Hd. rewrite sends_app, Hd, app_nil_r.
      destruct IHs as [(Ht & Hl & Hs)|(rest & Hs & Hf)]; [left; auto|].
      right. exists rest. split; [exact Hs|].
      eapply Forall_impl; [|exact Hf]. intros m. apply Hmono. }
    clear IHt IHs Hmono.
    remember (dispatch ev (run evs (boot API_KEY))) as w' eqn:Ew'.
    remember (run evs (boot API_KEY)) as w eqn:Ew.
    clear Ew Ew'.
    destruct S; cbn [trace tasks listeners children type_value] in *.
    + specialize (IHs' [] eq_refl). rewrite app_nil_r in IHs'. auto.
    + specialize (IHs' [] eq_refl). rewrite app_nil_r in IHs'. auto.
    + split; [now apply IHs'|]. exact IHt'.
    + split.
      * destruct (IHs' [E_preventDefault; E_setValue []] eq_refl)
          as [(_ & Hl & _)|Hr]; [congruence | now right].
      * intros j k Hn. apply nth_error_snoc_inv in Hn.
        destruct Hn as [Hn|[_ ->]]; [now apply IHt' with j|].
        split; reflexivity.
    + split.
      * match goal with
        | |- context [trace w ++ ?d] =>
            destruct (IHs' d eq_refl) as [(Ht & _)|Hr]; [|now right]
        end.
        rewrite Ht in H. destruct i; discriminate H.
      * intros j k Hn. apply nth_error_update_nth_inv in Hn.
        destruct Hn as [[_ ->]|[_ Hn]]; [|now apply IHt' with j].
        destruct (IHt' _ _ H) as [-> Hrole].
        exists (set_innerHTML messageEl (marked_parse userInput)).
        split; [apply in_app_iff; right; now left|]. split; [exact Hrole|].
        reflexivity.
    + pose proof (IHt' _ _ H) as Hshown. cbn [children] in Hshown.
      split.
      * right.
        destruct (IHs' [E_append (loading_bubble (next_id w));
                        E_scrollTop (Z.of_N (scrollHeight
                          (children w ++ [loading_bubble (next_id w)])))]
                    eq_refl) as [(Ht & _)|(rest & Hs & Hf)].
        -- rewrite Ht in H. destruct i; discriminate H.
        -- exists (rest ++ [userInput]).
           rewrite sends_app in Hs. cbn in Hs. rewrite app_nil_r in Hs.
           rewrite sends_app. cbn. rewrite Hs. split; [reflexivity|].
           apply Forall_app. split; [exact Hf|]. constructor; auto.
      * intros j k Hn. apply nth_error_update_nth_inv in Hn.
        destruct Hn as [[_ ->]|[_ Hn]]; [exact I | now apply IHt' with j].
    + split.
      * destruct (IHs' [E_remove loadingIndicator] eq_refl)
          as [(Ht & _)|Hr]; [|now right].
        rewrite Ht in H. destruct i; discriminate H.
      * intros j k Hn. apply nth_error_update_nth_inv in Hn.
        destruct Hn as [[_ ->]|[_ Hn]]; [exact I | now apply IHt' with j].
    + split.
      * match goal with
        | |- context [trace w ++ ?d] =>
            destruct (IHs' d eq_refl) as [(Ht & _)|Hr]; [|now right]
        end.
        rewrite Ht in H. destruct i; discriminate H.
      * intros j k Hn. apply nth_error_update_nth_inv in Hn.
        destruct Hn as [[_ ->]|[_ Hn]]; [exact I | now apply IHt' with j].
    + split.
      * destruct (IHs' (logged caught)
                    (proj2 (proj2 (logged_quiet caught))))
          as [(Ht & _)|Hr]; [|now right].
        rewrite Ht in H. destruct i; discriminate H.
      * intros j k Hn. apply nth_error_update_nth_inv in Hn.
        destruct Hn as [[_ ->]|[_ Hn]]; [exact I | now apply IHt' with j].
Qed.

(** X9: nothing is sent that the user does not see.  In every run, the
    first message handed to the chat session, if any, is ["Hello"], and
    for each later one the list holds a user-role bubble whose content is
    that message as rendered by the Markdown renderer. *)
Theorem X9_sent_messages_are_on_screen (API_KEY : option jsstring)
  (evs : list Event) :
  let w := run evs (boot API_KEY) in
  sends (trace w) = [] \/
  exists rest,
    sends (trace w) = lit "Hello" :: rest /\
    forall m, In m rest ->
      exists e, In e (children w) /\ is_role user e = true /\
                innerHTML e = marked_parse m.
Proof.
  intros w.
  destruct (proj1 (sent_shown_invariant API_KEY evs))
    as [(_ & _ & Hs)|(rest & Hs & Hf)]; [now left|].
  right. exists rest. split; [exact Hs|].
  intros m Hm. rewrite Forall_forall in Hf. exact (Hf m Hm).
Qed.

(** *** Counting over the task table *)

Lemma sum_update_nth {A} (f : A -> nat) (l : list A) (i : nat) (k k' : A) :
  nth_error l i = Some k ->
  list_sum (map f (update_nth i k' l)) + f k = list_sum (map f l) + f k'.
Proof.
  revert i. induction l as [|a l IH]; intros [|i] H; simpl in *;
    try discriminate.
  - injection H as ->. lia.
  - specialize (IH _ H). lia.
Qed.

Lemma sum_snoc {A} (f : A -> nat) (l : list A) (k : A) :
  list_sum (map f (l ++ [k])) = list_sum (map f l) + f k.
Proof. rewrite map_app, list_sum_app. simpl. lia. Qed.



Lemma submissions_app (evs evs' : list Event) :
  submissions (evs ++ evs') = submissions evs + submissions evs'.
Proof.
  induction evs as [|ev evs IH]; simpl; [reflexivity|].
  destruct ev; simpl; rewrite IH; reflexivity.
Qed.

(** *** What is logged *)



(** *** How many requests *)

Lemma requests_invariant (API_KEY : option jsstring) (evs : list Event) :
  let w := run evs (boot API_KEY) in
  List.length (sends (trace w)) + list_sum (map before_send (tasks w))
    <= 1 + submissions evs.
Proof.
  cbv zeta. revert evs.
  apply (reachable_ind API_KEY
           (fun evs w =>
              List.length (sends (trace w))
                + list_sum (map before_send (tasks w))
              <= 1 + submissions evs)).
  - destruct (absent_or_present API_KEY) as [Ha|[k [-> Hk]]].
    + rewrite (boot_absent _ Ha). cbn. lia.
    + rewrite (boot_present _ Hk). cbn. lia.
  - intros evs ev w w' _ C IH S.
    rewrite submissions_app.
    destruct S; cbn [trace tasks type_value];
      rewrite ?sends_app, ?length_app, ?sum_snoc; cbn [submissions];
      try match goal with
          | H : nth_error (tasks w) ?i = Some _
            |- context [update_nth ?i ?k' (tasks w)] =>
              pose proof (sum_update_nth before_send _ _ _ k' H) as E;
              cbn in E
          end;
      try (cbn; lia).
    destruct caught; cbn; lia.
Qed.

(** X11: nothing is sent twice.  In every run the number of messages
    handed to the chat session is at most one, the greeting, plus the
    number of submit events: a failed call is not retried and a settled
    one sends nothing more. *)
Theorem X11_one_request_per_submission (API_KEY : option jsstring)
  (evs : list Event) :
  List.length (sends (trace (run evs (boot API_KEY))))
    <= 1 + submissions evs.
Proof.
  pose proof (requests_invariant API_KEY evs) as H. cbv zeta in H. lia.
Qed.

(** *** Two submissions answered in the other order *)

Lemma submission_sent_at (w : World) (c : JsString.code_unit) (u : jsstring)
  (session : Chat) (j : nat) :
  j = List.length (tasks w) ->
  listeners w = [submit_listener] ->
  chat w = Some session ->
  JsString.trim (value w) = c :: u ->
  run [SubmitForm; Resolve j; Resolve j] w =
  mkWorld
    (children w ++ [user_bubble (next_id w) (c :: u);
                    loading_bubble (S (next_id w))])
    (max_scrollTop
       (children w ++ [user_bubble (next_id w) (c :: u);
                       loading_bubble (S (next_id w))]))
    [] (chat w) (listeners w) (S (S (next_id w)))
    (tasks w ++ [K_send (loading_bubble (S (next_id w))) InSubmitHandler])
    (trace w ++ [E_preventDefault; E_setValue [];
                 E_append (user_bubble (next_id w) (c :: u));
                 E_scrollTop (Z.of_N (scrollHeight
                    (children w ++ [user_bubble (next_id w) (c :: u)])));
                 E_append (loading_bubble (S (next_id w)));
                 E_scrollTop (Z.of_N (scrollHeight
                    (children w ++ [user_bubble (next_id w) (c :: u);
                                    loading_bubble (S (next_id w))])));
                 E_send (c :: u)]).
Proof. intros ->. apply submission_sent. Qed.

Lemma detach_fresh_tail (w : World) (id : nat) (l : list Element) :
  consistent w -> next_id w <= id ->
  detach id (children w ++ l) = children w ++ detach id l.
Proof.
  intros C Hid. unfold detach. rewrite filter_app. f_equal.
  apply detach_absent. intros Hi. apply (in_ids_fresh w _ C) in Hi. lia.
Qed.

Ltac decide_eqb :=
  repeat match goal with
  | |- context [Nat.eqb ?a ?b] =>
      first [ replace (Nat.eqb a b) with true
                by (symmetry; apply Nat.eqb_eq; lia)
            | replace (Nat.eqb a b) with false
                by (symmetry; apply Nat.eqb_neq; lia) ]
  end.

(** X12: replies are shown in the order in which the calls settle, not in
    the order of the questions.  From any page of a run with a credential,
    when the user submits a first text and then, before its call settles,
    a second one, and the second call settles before the first, the list
    ends with the two user bubbles in the order of submission followed by
    the answer to the second and then the answer to the first; both
    indicators are gone and both tasks have ended. *)
Theorem X12_replies_follow_settlement_order (k : jsstring)
  (evs : list Event) (v1 v2 : jsstring) (o1 o2 : Outcome) :
  JsString.truthy k = true ->
  let w := run evs (boot (Some k)) in
  let u1 := JsString.trim v1 in
  let u2 := JsString.trim v2 in
  u1 <> [] -> u2 <> [] ->
  let i := List.length (tasks w) in
  let n := next_id w in
  let w' :=
    run ([UserTypes v1; SubmitForm; Resolve i; Resolve i] ++
         [UserTypes v2; SubmitForm; Resolve (S i); Resolve (S i)] ++
         [Settle (S i) o2; Resolve (S i); Resolve (S i)] ++
         [Settle i o1; Resolve i; Resolve i]) w in
  children w'
    = children w ++
      [user_bubble n u1;
       user_bubble (S (S n)) u2;
       model_bubble (S (S (S (S n)))) (settled_text InSubmitHandler o2);
       model_bubble (S (S (S (S (S n))))) (settled_text InSubmitHandler o1)] /\
  nth_error (tasks w') i = Some K_done /\
  nth_error (tasks w') (S i) = Some K_done /\
  value w' = [].
Proof.
  intros Hk w u1 u2 Hu1 Hu2 i n w'.
  pose proof (consistent_reachable (Some k) evs : consistent w) as C.
  destruct (present_static k evs Hk) as [Hl Hc]. fold w in Hl, Hc.
  destruct (JsString.trim v1) as [|c1 r1] eqn:Ht1; [now elim Hu1|].
  destruct (JsString.trim v2) as [|c2 r2] eqn:Ht2; [now elim Hu2|].
  subst u1 u2. clear Hu1 Hu2.
  assert (Hw' : w' =
    run [Settle i o1; Resolve i; Resolve i]
      (run [Settle (S i) o2; Resolve (S i); Resolve (S i)]
         (run [SubmitForm; Resolve (S i); Resolve (S i)]
            (type_value v2
               (run [SubmitForm; Resolve i; Resolve i]
                  (type_value v1 w)))))) by reflexivity.
  clearbody w'. subst w'.
  pose proof (submission_sent_at (type_value v1 w) c1 r1 _ i
                eq_refl Hl Hc Ht1) as E1.
  cbn [type_value children scrollTop value chat listeners next_id tasks trace]
    in E1.
  fold n in E1.
  assert (Hi : i = List.length (tasks w)) by reflexivity.
  assert (Hn : n = next_id w) by reflexivity.
  clearbody w i n.
  rewrite E1. clear E1.
  erewrite submission_sent_at;
    [ | cbn; rewrite length_app; cbn; lia
      | cbn; exact Hl | cbn; exact Hc | cbn; exact Ht2 ].
  cbn [type_value children scrollTop value chat listeners next_id tasks trace].
  erewrite (exchange_finished _ (S i)
              (loading_bubble (S (S (S n)))) InSubmitHandler o2).
  2:{ cbn [tasks].
      replace (S i) with (List.length
        (tasks w ++ [K_send (loading_bubble (S n)) InSubmitHandler]))
        by (rewrite length_app; cbn; lia).
      apply nth_error_snoc_here. }
  cbn [children scrollTop value chat listeners next_id tasks trace].
  erewrite (exchange_finished _ i
              (loading_bubble (S n)) InSubmitHandler o1).
  2:{ cbn [tasks].
      rewrite nth_error_update_nth_other by lia.
      rewrite nth_error_app1
        by (rewrite length_app; cbn; lia).
      rewrite Hi. apply nth_error_snoc_here. }
  cbn [children scrollTop value chat listeners next_id tasks trace].
  split; [|split; [|split]].
  - cbn [el_id loading_bubble].
    rewrite <- !app_assoc.
    rewrite (detach_fresh_tail w (S (S (S n))) _ C) by lia.
    rewrite <- app_assoc.
    rewrite (detach_fresh_tail w (S n) _ C) by lia.
    rewrite <- app_assoc. f_equal.
    unfold detach. repeat (cbn -[Nat.eqb]; decide_eqb). reflexivity.
  - eapply nth_error_update_nth_here.
    rewrite nth_error_update_nth_other by lia.
    rewrite nth_error_app1 by (rewrite length_app; cbn; lia).
    rewrite Hi. apply nth_error_snoc_here.
  - rewrite nth_error_update_nth_other by lia.
    eapply nth_error_update_nth_here.
    replace (S i) with (List.length
      (tasks w ++ [K_send (loading_bubble (S n)) InSubmitHandler]))
      by (rewrite length_app; cbn; lia).
    apply nth_error_snoc_here.
  - reflexivity.
Qed.

(** *** A failed greeting *)

(** X13: when the first call, made by initializeChat, fails, the list holds
    one element only: a model-role bubble whose Markdown source is the
    notice "**Error:** Could not initialize chat. ", two line feeds and the
    error's string conversion between two runs of three backquotes; the
    indicator is gone, the error value is passed to [console.error] once,
    nothing else has been sent and the task has ended. *)
Theorem X13_failed_greeting_is_reported (k : jsstring) (error : JsThrown) :
  JsString.truthy k = true ->
  let w := run [Settle 0 (Fault error); Resolve 0; Resolve 0]
             (boot (Some k)) in
  children w
    = [model_bubble 1
         (lit "**Error:** Could not initialize chat. " ++
          [JsString.LF; JsString.LF] ++
          lit "```" ++ toString error ++ lit "```")] /\
  indicators (children w) = [] /\
  console_errors (trace w) = [error] /\
  sends (trace w) = [lit "Hello"] /\
  tasks w = [K_done].
Proof.
  intros Hk w.
  pose proof (greeting_finished k (Fault error) Hk : w = _) as H.
  clearbody w. subst w. cbn. repeat split.
Qed.

(** *** Submitting twice *)

(** X14: the field is cleared before the handler first waits, so a second
    submit event that follows at once, with nothing typed in between, finds
    it empty and is aborted: one task is started, not two, and the second
    event only cancels its default action. *)
Theorem X14_immediate_resubmission_is_aborted (w : World) :
  listeners w = [submit_listener] ->
  JsString.trim (value w) <> [] ->
  let w1 := dispatch SubmitForm w in
  let w2 := dispatch SubmitForm w1 in
  List.length (tasks w1) = S (List.length (tasks w)) /\
  tasks w2 = tasks w1 /\
  children w2 = children w1 /\
  value w2 = [] /\
  trace w2 = trace w1 ++ [E_preventDefault].
Proof.
  intros Hl Hne w1 w2.
  destruct (JsString.trim (value w)) as [|c u] eqn:Ht; [now elim Hne|].
  pose proof (submit_accepted w c u Hl Ht : w1 = _) as H1.
  assert (Hlen : List.length (tasks w1) = S (List.length (tasks w)))
    by (rewrite H1; cbn; rewrite length_app; cbn; lia).
  assert (Hl1 : listeners w1 = [submit_listener]) by (rewrite H1; exact Hl).
  assert (Ht1 : JsString.trim (value w1) = []) by (rewrite H1; reflexivity).
  pose proof (submit_blank w1 Hl1 Ht1 : w2 = _) as H2.
  clearbody w1 w2. subst w2. cbn.
  split; [exact Hlen|]. repeat split.
  rewrite H1. reflexivity.
Qed.

End Page.

(** ** The theorems at work on the sample page *)

Local Notation "'sboot'" := (boot Sample.parse Sample.height Sample.viewport).
Local Notation "'srun'" := (run Sample.parse Sample.height Sample.viewport).
Local Notation "'sdispatch'" :=
  (dispatch Sample.parse Sample.height Sample.viewport).

(** C1, as the specification words it, fails for an undefined credential:
    the submit listener is not registered, and typing a question and
    submitting it starts no task and has no effect at all beyond the text
    in the field. *)
Lemma C1_handler_not_registered :
  credential_absent None /\
  ~ submit_handler_registered (sboot None) /\
  srun [UserTypes (lit "2+2=?"); SubmitForm] (sboot None)
    = type_value (lit "2+2=?") (sboot None) /\
  tasks (srun [UserTypes (lit "2+2=?"); SubmitForm] (sboot None)) = [] /\
  sends (trace (srun [UserTypes (lit "2+2=?"); SubmitForm] (sboot None))) = [].
Proof.
  split; [left; reflexivity|].
  split; [intros H; exact H|].
  repeat split.
Qed.

Lemma C1_missing_credential_halts_witness :
  credential_absent None /\
  children (sboot None) = [error_element 0] /\
  ~ submit_handler_registered (sboot None) /\
  trace (srun [UserTypes (lit "2+2=?"); SubmitForm] (sboot None))
    = trace (sboot None).
Proof.
  pose proof (C1_missing_credential_halts Sample.parse Sample.height
                Sample.viewport None (or_introl eq_refl)) as H.
  cbv zeta in H. destruct H as (_ & Hc & _ & _ & _ & Hr & Hrun).
  split; [left; reflexivity|].
  split; [exact Hc|]. split; [exact Hr|].
  exact (proj1 (proj2 (Hrun [UserTypes (lit "2+2=?"); SubmitForm]))).
Defined.


Lemma C3_user_bubble_precedes_request_witness :
  let w := srun [UserTypes (lit " 2+2=? ")] (sboot (Some (lit "key"))) in
  let w1 := sdispatch SubmitForm w in
  let w2 := sdispatch (Resolve 1) w1 in
  listeners w = [submit_listener] /\
  JsString.trim (value w) = lit "2+2=?" /\
  value w1 = [] /\
  children w2
    = children w ++ [user_bubble Sample.parse 1 (lit "2+2=?")] /\
  sends (trace w2) = sends (trace w).
Proof.
  intros w w1 w2.
  assert (Hl : listeners w = [submit_listener]) by (vm_compute; reflexivity).
  assert (Hc : chat w = Some (mkChat (lit "key") "gemini-2.5-flash"
                                systemInstruction))
    by (vm_compute; reflexivity).
  assert (Ht : JsString.trim (value w) = lit "2+2=?")
    by (vm_compute; reflexivity).
  assert (Hne : JsString.trim (value w) <> [])
    by (vm_compute; discriminate).
  pose proof (C3_user_bubble_precedes_request Sample.parse Sample.height
                Sample.viewport w _ Hl Hc Hne) as H.
  cbv zeta in H. destruct H as ((Hv & _) & (_ & _ & Hch & Hs) & _).
  split; [exact Hl|]. split; [exact Ht|].
  split; [vm_compute in Hv |- *; exact Hv|].
  split; [vm_compute in Hch |- *; exact Hch|].
  vm_compute in Hs |- *; exact Hs.
Defined.

Lemma C4_blank_submit_is_inert_witness :
  let w := srun [UserTypes (lit "   ")] (sboot (Some (lit "key"))) in
  listeners w = [submit_listener] /\
  forallb JsString.is_ws (value w) = true /\
  children (sdispatch SubmitForm w) = children w /\
  sends (trace (sdispatch SubmitForm w)) = sends (trace w) /\
  value (sdispatch SubmitForm w) = value w.
Proof.
  intros w.
  assert (Hl : listeners w = [submit_listener]) by (vm_compute; reflexivity).
  assert (Hw : forallb JsString.is_ws (value w) = true)
    by (vm_compute; reflexivity).
  destruct (C4_blank_submit_is_inert Sample.parse Sample.height
              Sample.viewport w Hl Hw) as (Hc & Hs & Hv & _).
  repeat split; assumption.
Defined.


Lemma C6_failure_reported_and_logged_witness :
  let evs := [UserTypes (lit "2+2=?"); SubmitForm; Resolve 1; Resolve 1] in
  let error := ErrorObj (lit "Error") (lit "Network timeout") in
  let w := srun evs (sboot (Some (lit "key"))) in
  let w' := srun [Settle 1 (Fault error); Resolve 1; Resolve 1] w in
  nth_error (tasks w) 1 = Some (K_send (loading_bubble 2) InSubmitHandler) /\
  exists messageEl v,
    trace w'
      = trace w ++ [E_remove (loading_bubble 2); E_append messageEl;
                    E_scrollTop v; E_console_error error] /\
    forall e, In e (children w') -> el_id e <> 2.
Proof.
  intros evs error w w'.
  assert (Hk : nth_error (tasks w) 1
               = Some (K_send (loading_bubble 2) InSubmitHandler))
    by (vm_compute; reflexivity).
  split; [exact Hk|].
  destruct (C6_failure_reported_and_logged Sample.parse Sample.height
              Sample.viewport (Some (lit "key")) evs 1 _ error Hk)
    as (el & v & _ & _ & _ & _ & _ & Hout & Ht & _).
  exists el, v. split; [exact Ht | exact Hout].
Defined.

Lemma C7_startup_greeting_witness :
  JsString.truthy (lit "key") = true /\
  sends (trace (sboot (Some (lit "key")))) = [lit "Hello"] /\
  submit_handler_registered (sboot (Some (lit "key"))).
Proof.
  assert (Hk : JsString.truthy (lit "key") = true) by (vm_compute; reflexivity).
  destruct (C7_startup_greeting Sample.parse Sample.height Sample.viewport
              (lit "key") Hk) as ((Hs & _ & Hr) & _).
  split; [exact Hk|]. split; [exact Hs | exact Hr].
Defined.

Lemma C8_failure_preserves_messages_witness :
  let evs := [UserTypes (lit "2+2=?"); SubmitForm; Resolve 1; Resolve 1] in
  let error := ErrorObj (lit "Error") (lit "Network timeout") in
  let w := srun evs (sboot (Some (lit "key"))) in
  let w1 := sdispatch (Settle 1 (Fault error)) w in
  nth_error (tasks w) 1 = Some (K_send (loading_bubble 2) InSubmitHandler) /\
  exists before after,
    children w = before ++ loading_bubble 2 :: after /\
    children w1 = before ++ after.
Proof.
  intros evs error w w1.
  assert (Hk : nth_error (tasks w) 1
               = Some (K_send (loading_bubble 2) InSubmitHandler))
    by (vm_compute; reflexivity).
  split; [exact Hk|].
  destruct (proj1 (C8_failure_preserves_messages Sample.parse Sample.height
                     Sample.viewport)
              (Some (lit "key")) evs 1 _ _ error Hk)
    as (before & after & Hc & _ & H1 & _).
  exists before, after. split; [exact Hc | exact H1].
Defined.

Lemma C9_user_bubbles_come_from_submissions_witness :
  let evs := [UserTypes (lit "2+2=?"); SubmitForm; Resolve 1] in
  let e := user_bubble Sample.parse 1 (lit "2+2=?") in
  In e (children (srun evs (sboot (Some (lit "key"))))) /\
  is_role user e = true /\
  from_submission Sample.parse Sample.height Sample.viewport
    (Some (lit "key")) evs (innerHTML e).
Proof.
  intros evs e.
  assert (Hin : In e (children (srun evs (sboot (Some (lit "key"))))))
    by (vm_compute; right; left; reflexivity).
  assert (Hr : is_role user e = true) by (vm_compute; reflexivity).
  split; [exact Hin|]. split; [exact Hr|].
  exact (proj2 (proj2 (C9_user_bubbles_come_from_submissions Sample.parse
                         Sample.height Sample.viewport))
           (Some (lit "key")) evs e Hin Hr).
Defined.

Lemma C10_every_append_scrolls_witness :
  appends_scrolled
    (trace (srun [UserTypes (lit "2+2=?"); SubmitForm; Resolve 1; Resolve 1]
              (sboot (Some (lit "key"))))) = true.
Proof.
  exact (proj2 (proj2 (C10_every_append_scrolls Sample.parse Sample.height
                         Sample.viewport))
           (Some (lit "key"))
           [UserTypes (lit "2+2=?"); SubmitForm; Resolve 1; Resolve 1]).
Defined.

Lemma X1_submit_accepts_iff_not_blank_witness :
  let w := srun [UserTypes (lit " 2+2=? ")] (sboot (Some (lit "key"))) in
  listeners w = [submit_listener] /\
  forallb JsString.is_ws (value w) = false /\
  exists messageEl,
    tasks (sdispatch SubmitForm w)
      = tasks w ++
        [K_user_parse messageEl (Sample.parse (lit "2+2=?")) (lit "2+2=?")].
Proof.
  intros w.
  assert (Hl : listeners w = [submit_listener]) by (vm_compute; reflexivity).
  assert (Hw : forallb JsString.is_ws (value w) = false)
    by (vm_compute; reflexivity).
  split; [exact Hl|]. split; [exact Hw|].
  destruct (proj2 (X1_submit_accepts_iff_not_blank Sample.parse Sample.height
                     Sample.viewport w Hl) Hw) as (el & Ht & _).
  exists el. vm_compute in Ht |- *. exact Ht.
Defined.

Lemma X2_sent_messages_are_trimmed_witness :
  let evs := [UserTypes (lit " 2+2=? "); SubmitForm; Resolve 1; Resolve 1] in
  In (lit "2+2=?") (sends (trace (srun evs (sboot (Some (lit "key")))))) /\
  trimmed (lit "2+2=?").
Proof.
  intros evs.
  assert (Hin : In (lit "2+2=?")
                  (sends (trace (srun evs (sboot (Some (lit "key")))))))
    by (vm_compute; right; left; reflexivity).
  split; [exact Hin|].
  exact (proj2 (X2_sent_messages_are_trimmed Sample.parse Sample.height
                  Sample.viewport (Some (lit "key")) evs (lit "2+2=?") Hin)).
Defined.

Lemma X4_session_fixed_for_the_run_witness :
  lit " " <> [] /\
  chat (srun [UserTypes (lit "hi"); SubmitForm] (sboot (Some (lit " "))))
    = Some (mkChat (lit " ") "gemini-2.5-flash" systemInstruction).
Proof.
  assert (Hk : lit " " <> []) by (vm_compute; discriminate).
  split; [exact Hk|].
  exact (proj1 (X4_session_fixed_for_the_run Sample.parse Sample.height
                  Sample.viewport (lit " ")
                  [UserTypes (lit "hi"); SubmitForm] Hk)).
Defined.

Lemma X7_overlapping_calls_are_independent_witness :
  let evs := [UserTypes (lit "2+2=?"); SubmitForm; Resolve 1; Resolve 1] in
  let w := srun evs (sboot (Some (lit "key"))) in
  let w1 := sdispatch (Settle 1 (Reply (lit "4"))) w in
  nth_error (tasks w) 1 = Some (K_send (loading_bubble 2) InSubmitHandler) /\
  nth_error (tasks w) 0 = Some (K_send (loading_bubble 0) InInitializeChat) /\
  In (loading_bubble 0) (children w1) /\
  nth_error (tasks w1) 0 = Some (K_send (loading_bubble 0) InInitializeChat).
Proof.
  intros evs w w1.
  assert (H1 : nth_error (tasks w) 1
               = Some (K_send (loading_bubble 2) InSubmitHandler))
    by (vm_compute; reflexivity).
  assert (H0 : nth_error (tasks w) 0
               = Some (K_send (loading_bubble 0) InInitializeChat))
    by (vm_compute; reflexivity).
  assert (Hne : 1 <> 0) by lia.
  destruct (X7_overlapping_calls_are_independent Sample.parse Sample.height
              Sample.viewport (Some (lit "key")) evs 1 0 _ _ _ _
              (Reply (lit "4")) Hne H1 H0)
    as (_ & (_ & Hin & Hk) & _).
  split; [exact H1|]. split; [exact H0|]. split; [exact Hin | exact Hk].
Defined.

Lemma X8_children_are_bubbles_of_one_role_witness :
  In (loading_bubble 0) (children (srun [] (sboot (Some (lit "key"))))) /\
  is_role model (loading_bubble 0) = true.
Proof.
  assert (Hin : In (loading_bubble 0)
                  (children (srun [] (sboot (Some (lit "key"))))))
    by (vm_compute; left; reflexivity).
  split; [exact Hin|].
  destruct (X8_children_are_bubbles_of_one_role Sample.parse Sample.height
              Sample.viewport (Some (lit "key")) [] _ Hin)
    as (_ & _ & _ & Hload).
  exact (proj1 (Hload eq_refl)).
Defined.

Lemma X12_replies_follow_settlement_order_witness :
  let w := sboot (Some (lit "key")) in
  let w' :=
    srun ([UserTypes (lit "1+1"); SubmitForm; Resolve 1; Resolve 1] ++
          [UserTypes (lit "2+2"); SubmitForm; Resolve 2; Resolve 2] ++
          [Settle 2 (Reply (lit "4")); Resolve 2; Resolve 2] ++
          [Settle 1 (Reply (lit "2")); Resolve 1; Resolve 1]) w in
  JsString.truthy (lit "key") = true /\
  JsString.trim (lit "1+1") <> [] /\
  JsString.trim (lit "2+2") <> [] /\
  children w'
    = children w ++
      [user_bubble Sample.parse 1 (lit "1+1");
       user_bubble Sample.parse 3 (lit "2+2");
       model_bubble Sample.parse 5 (lit "4");
       model_bubble Sample.parse 6 (lit "2")].
Proof.
  intros w w'.
  assert (Hk : JsString.truthy (lit "key") = true) by (vm_compute; reflexivity).
  assert (H1 : JsString.trim (lit "1+1") <> []) by (vm_compute; discriminate).
  assert (H2 : JsString.trim (lit "2+2") <> []) by (vm_compute; discriminate).
  split; [exact Hk|]. split; [exact H1|]. split; [exact H2|].
  pose proof (X12_replies_follow_settlement_order Sample.parse Sample.height
                Sample.viewport (lit "key") [] (lit "1+1") (lit "2+2")
                (Reply (lit "2")) (Reply (lit "4")) Hk H1 H2) as H.
  cbv zeta in H. destruct H as (Hc & _).
  vm_compute in Hc |- *. exact Hc.
Defined.

Lemma X13_failed_greeting_is_reported_witness :
  let error := ErrorObj (lit "Error") (lit "Network timeout") in
  JsString.truthy (lit "key") = true /\
  console_errors
    (trace (srun [Settle 0 (Fault error); Resolve 0; Resolve 0]
              (sboot (Some (lit "key"))))) = [error].
Proof.
  intros error.
  assert (Hk : JsString.truthy (lit "key") = true) by (vm_compute; reflexivity).
  split; [exact Hk|].
  destruct (X13_failed_greeting_is_reported Sample.parse Sample.height
              Sample.viewport (lit "key") error Hk) as (_ & _ & Hc & _).
  exact Hc.
Defined.

Lemma X14_immediate_resubmission_is_aborted_witness :
  let w := srun [UserTypes (lit "2+2=?")] (sboot (Some (lit "key"))) in
  listeners w = [submit_listener] /\
  JsString.trim (value w) <> [] /\
  tasks (sdispatch SubmitForm (sdispatch SubmitForm w))
    = tasks (sdispatch SubmitForm w).
Proof.
  intros w.
  assert (Hl : listeners w = [submit_listener]) by (vm_compute; reflexivity).
  assert (Hne : JsString.trim (value w) <> []) by (vm_compute; discriminate).
  split; [exact Hl|]. split; [exact Hne|].
  destruct (X14_immediate_resubmission_is_aborted Sample.parse Sample.height
              Sample.viewport w Hl Hne) as (_ & Ht & _).
  exact Ht.
Defined.
